(** * SailfinIO/pool: the JWKS client and its collaborators

    A shallow embedding of [src/clients/JwksClient.ts] together with the
    collaborators it talks to (HTTP transport, TTL cache, logger, the
    runtime's JSON parser), and the properties of the token-trust pipeline
    that the specification states about them.

    Asynchronous code is modelled in two layers that share their building
    blocks: a run-to-completion reading of one call (a state and exception
    monad over the client's mutable fields, the cache and a log of the
    calls made to collaborators), and an interleaving step relation for the
    single-flight marker. *)

From Stdlib Require Import String Ascii ZArith List Lia Bool.
From stdpp Require Import base option list strings gmap.
Import ListNotations.

Set Warnings "-register-all".
Local Open Scope string_scope.
Local Open Scope Z_scope.

(** ** JavaScript values that [JSON.parse] can produce *)

Inductive JsValue : Type :=
| JNull
| JBool (b : bool)
| JNumber (lexeme : string)
| JString (s : string)
| JArray (items : list JsValue)
| JObject (props : list (string * JsValue)).

(** The result of a property read [v.name]: nothing, a value owned by the
    object, or a method inherited from a built-in prototype. *)
Inductive PropRead : Type :=
| PUndefined
| PValue (v : JsValue)
| PMethod (name : string).

(** Errors that can be thrown.  [ClientError] is the repository's typed
    error (message, code and an optional context holding the original
    error); the other constructor stands for the runtime's own errors
    ([Error], [TypeError], [SyntaxError]). *)
Inductive JsError : Type :=
| ClientError (message code : string) (context : option JsError)
| NativeError (name message : string).

Definition instanceof_ClientError (e : JsError) : bool :=
  match e with
  | ClientError _ _ _ => true
  | NativeError _ _ => false
  end.

Definition error_code (e : JsError) : option string :=
  match e with
  | ClientError _ code _ => Some code
  | NativeError _ _ => None
  end.

Definition error_context (e : JsError) : option JsError :=
  match e with
  | ClientError _ _ ctx => ctx
  | NativeError _ _ => None
  end.

Inductive Outcome (A : Type) : Type :=
| Return (a : A)
| Throw (e : JsError).
Arguments Return {A} a.
Arguments Throw {A} e.

(** What a request to the transport settles with. *)
Inductive HttpOutcome : Type :=
| Resolved (body : string)
| Rejected (e : JsError).

(** ** Own properties of parsed objects

    [JSON.parse] keeps the last of several members with one name. *)
Fixpoint own_property (props : list (string * JsValue)) (name : string)
  : option JsValue :=
  match props with
  | [] => None
  | (k, v) :: rest =>
      match own_property rest name with
      | Some w => Some w
      | None => if String.eqb k name then Some v else None
      end
  end.

(** [jwks.keys]: reading a property of [null] throws; an array inherits
    the method [Array.prototype.keys]; other primitives have no such
    property. *)
Definition read_keys (jwks : JsValue) : Outcome PropRead :=
  match jwks with
  | JNull =>
      Throw (NativeError "TypeError" "Cannot read properties of null (reading 'keys')")
  | JObject props =>
      Return (match own_property props "keys" with
              | Some v => PValue v
              | None => PUndefined
              end)
  | JArray _ => Return (PMethod "keys")
  | JBool _ | JNumber _ | JString _ => Return PUndefined
  end.

(** [k.kid] *)
Definition read_kid (k : JsValue) : Outcome PropRead :=
  match k with
  | JNull =>
      Throw (NativeError "TypeError" "Cannot read properties of null (reading 'kid')")
  | JObject props =>
      Return (match own_property props "kid" with
              | Some v => PValue v
              | None => PUndefined
              end)
  | JArray _ | JBool _ | JNumber _ | JString _ => Return PUndefined
  end.

(** A number literal denotes zero when its mantissa has no digit but 0
    (underflow of longer literals is not modelled; no decision of the
    client rests on it, see [validateJwks_condition]). *)
Fixpoint mantissa_zero (s : string) : bool :=
  match s with
  | EmptyString => true
  | String c rest =>
      if (Ascii.eqb c "e" || Ascii.eqb c "E")%bool then true
      else if (Ascii.eqb c "0" || Ascii.eqb c "-" || Ascii.eqb c ".")%bool
           then mantissa_zero rest
           else false
  end.

Definition truthy_value (v : JsValue) : bool :=
  match v with
  | JNull => false
  | JBool b => b
  | JNumber lexeme => negb (mantissa_zero lexeme)
  | JString s => negb (String.eqb s "")
  | JArray _ | JObject _ => true
  end.

Definition truthy (p : PropRead) : bool :=
  match p with
  | PUndefined => false
  | PValue v => truthy_value v
  | PMethod _ => true
  end.

Definition Array_isArray (p : PropRead) : bool :=
  match p with
  | PValue (JArray _) => true
  | _ => false
  end.

(** [a === kid] for a string [kid] *)
Definition strict_eq_string (p : PropRead) (s : string) : bool :=
  match p with
  | PValue (JString t) => String.eqb t s
  | _ => false
  end.

(** ** [JSON.parse] and [JSON.stringify]

    The runtime's parser, for texts made of bytes: the grammar of ECMA-404
    by recursive descent.  A string is kept as its UTF-8 bytes: a [\u]
    escape as the bytes of its code unit, and a high surrogate escape
    followed at once by a low surrogate escape as the four bytes of the
    character the pair denotes, so that a character parses to the same
    bytes escaped or not.  The client's methods below take the parser as
    a parameter; this one is used to run them on concrete responses. *)
Module JSON.

Definition dquote : ascii := "034"%char.
Definition backslash : ascii := "092"%char.

Definition is_ws (c : ascii) : bool :=
  (Ascii.eqb c " " || Ascii.eqb c "009" || Ascii.eqb c "010" || Ascii.eqb c "013")%bool.

Definition is_digit (c : ascii) : bool :=
  ((48 <=? nat_of_ascii c)%nat && (nat_of_ascii c <=? 57)%nat)%bool.

Fixpoint skip_ws (s : string) : string :=
  match s with
  | String c rest => if is_ws c then skip_ws rest else s
  | EmptyString => s
  end.

Fixpoint strip_prefix (p s : string) : option string :=
  match p, s with
  | EmptyString, _ => Some s
  | String a p', String b s' => if Ascii.eqb a b then strip_prefix p' s' else None
  | String _ _, EmptyString => None
  end.

(** The longest run of digits at the head of [s], and what follows. *)
Fixpoint take_digits (s : string) : string * string :=
  match s with
  | String c rest =>
      if is_digit c then
        let '(ds, r) := take_digits rest in (String c ds, r)
      else (EmptyString, s)
  | EmptyString => (EmptyString, s)
  end.

Definition take_sign (s : string) : string * string :=
  match s with
  | String c rest => if Ascii.eqb c "-" then ("-", rest) else ("", s)
  | EmptyString => ("", s)
  end.

Definition take_int (s : string) : option (string * string) :=
  match s with
  | String c rest =>
      if Ascii.eqb c "0" then Some ("0", rest)
      else if is_digit c then Some (take_digits s)
      else None
  | EmptyString => None
  end.

Definition take_frac (s : string) : option (string * string) :=
  match s with
  | String c rest =>
      if Ascii.eqb c "." then
        match take_digits rest with
        | (EmptyString, _) => None
        | (ds, r) => Some (String c ds, r)
        end
      else Some ("", s)
  | EmptyString => Some ("", s)
  end.

Definition take_exp (s : string) : option (string * string) :=
  match s with
  | String c rest =>
      if (Ascii.eqb c "e" || Ascii.eqb c "E")%bool then
        let '(sg, r1) :=
          match rest with
          | String d r =>
              if (Ascii.eqb d "+" || Ascii.eqb d "-")%bool
              then (String d "", r) else ("", rest)
          | EmptyString => ("", rest)
          end in
        match take_digits r1 with
        | (EmptyString, _) => None
        | (ds, r) => Some (String c (sg +:+ ds), r)
        end
      else Some ("", s)
  | EmptyString => Some ("", s)
  end.

Definition parse_number (s : string) : option (string * string) :=
  let '(sg, r0) := take_sign s in
  '(i, r1) ← take_int r0;
  '(f, r2) ← take_frac r1;
  '(e, r3) ← take_exp r2;
  Some (sg +:+ i +:+ f +:+ e, r3).

Definition hex_digit (c : ascii) : option nat :=
  let n := nat_of_ascii c in
  if ((48 <=? n) && (n <=? 57))%nat%bool then Some (n - 48)%nat
  else if ((65 <=? n) && (n <=? 70))%nat%bool then Some (n - 55)%nat
  else if ((97 <=? n) && (n <=? 102))%nat%bool then Some (n - 87)%nat
  else None.

(** UTF-8 bytes of a code unit below 65536. *)
Definition utf8 (u : nat) : string :=
  if (u <? 128)%nat then String (ascii_of_nat u) ""
  else if (u <? 2048)%nat then
    String (ascii_of_nat (192 + u / 64))
      (String (ascii_of_nat (128 + u mod 64)) "")
  else
    String (ascii_of_nat (224 + u / 4096))
      (String (ascii_of_nat (128 + (u / 64) mod 64))
         (String (ascii_of_nat (128 + u mod 64)) "")).

(** UTF-8 bytes of the character denoted by a surrogate pair, given the
    ten payload bits of each half. *)
Definition utf8_pair (hi lo : nat) : string :=
  let cp := (65536 + N.of_nat hi * 1024 + N.of_nat lo)%N in
  String (ascii_of_N (240 + cp / 262144))
    (String (ascii_of_N (128 + (cp / 4096) mod 64))
       (String (ascii_of_N (128 + (cp / 64) mod 64))
          (String (ascii_of_N (128 + cp mod 64)) ""))).

(** The payload of a surrogate code unit [D8xx] to [DBxx] (high, from
    [base] 8) or [DCxx] to [DFxx] (low, from [base] 12), given its four
    hex digits. *)
Definition surrogate (base a b c d : nat) : option nat :=
  if (Nat.eqb a 13 && (base <=? b) && (b <? base + 4))%nat%bool
  then Some (((b - base) * 16 + c) * 16 + d)%nat
  else None.

(** The low surrogate payload when the four characters after [\u] are
    those of a low surrogate. *)
Definition low_surrogate (h1 h2 h3 h4 : ascii) : option nat :=
  a ← hex_digit h1; b ← hex_digit h2;
  c ← hex_digit h3; d ← hex_digit h4;
  surrogate 12 a b c d.

Definition simple_escape (c : ascii) : option ascii :=
  if Ascii.eqb c dquote then Some dquote
  else if Ascii.eqb c backslash then Some backslash
  else if Ascii.eqb c "/" then Some "/"%char
  else if Ascii.eqb c "b" then Some "008"%char
  else if Ascii.eqb c "f" then Some "012"%char
  else if Ascii.eqb c "n" then Some "010"%char
  else if Ascii.eqb c "r" then Some "013"%char
  else if Ascii.eqb c "t" then Some "009"%char
  else None.

(** The characters of a string literal after its opening quote, up to
    the closing one. *)
Fixpoint parse_chars (s : string) : option (string * string) :=
  match s with
  | EmptyString => None
  | String c rest =>
      if Ascii.eqb c dquote then Some ("", rest)
      else if Ascii.eqb c backslash then
        match rest with
        | String e rest' =>
            if Ascii.eqb e "u" then
              match rest' with
              | String h1 (String h2 (String h3 (String h4 rest''))) =>
                  a ← hex_digit h1; b ← hex_digit h2;
                  c' ← hex_digit h3; d ← hex_digit h4;
                  let single :=
                    '(t, r) ← parse_chars rest'';
                    Some (utf8 (((a * 16 + b) * 16 + c') * 16 + d)%nat +:+ t, r) in
                  match surrogate 8 a b c' d, rest'' with
                  | Some hi,
                    String b2 (String u2 (String l1 (String l2 (String l3
                      (String l4 rest3))))) =>
                      if (Ascii.eqb b2 backslash && Ascii.eqb u2 "u")%bool then
                        match low_surrogate l1 l2 l3 l4 with
                        | Some lo =>
                            '(t, r) ← parse_chars rest3;
                            Some (utf8_pair hi lo +:+ t, r)
                        | None => single
                        end
                      else single
                  | _, _ => single
                  end
              | _ => None
              end
            else
              x ← simple_escape e;
              '(t, r) ← parse_chars rest';
              Some (String x t, r)
        | EmptyString => None
        end
      else if (nat_of_ascii c <? 32)%nat then None
      else
        '(t, r) ← parse_chars rest;
        Some (String c t, r)
  end.

Fixpoint parse_value (fuel : nat) (s : string) : option (JsValue * string) :=
  match fuel with
  | O => None
  | S fuel' =>
      match skip_ws s with
      | EmptyString => None
      | String c rest as s' =>
          if Ascii.eqb c "{" then
            match skip_ws rest with
            | String d r =>
                if Ascii.eqb d "}" then Some (JObject [], r)
                else '(ms, r') ← parse_members fuel' rest; Some (JObject ms, r')
            | EmptyString => None
            end
          else if Ascii.eqb c "[" then
            match skip_ws rest with
            | String d r =>
                if Ascii.eqb d "]" then Some (JArray [], r)
                else '(vs, r') ← parse_elements fuel' rest; Some (JArray vs, r')
            | EmptyString => None
            end
          else if Ascii.eqb c dquote then
            '(t, r) ← parse_chars rest; Some (JString t, r)
          else if Ascii.eqb c "t" then
            r ← strip_prefix "true" s'; Some (JBool true, r)
          else if Ascii.eqb c "f" then
            r ← strip_prefix "false" s'; Some (JBool false, r)
          else if Ascii.eqb c "n" then
            r ← strip_prefix "null" s'; Some (JNull, r)
          else
            '(lexeme, r) ← parse_number s'; Some (JNumber lexeme, r)
      end
  end
with parse_elements (fuel : nat) (s : string) : option (list JsValue * string) :=
  match fuel with
  | O => None
  | S fuel' =>
      '(v, r) ← parse_value fuel' s;
      match skip_ws r with
      | String c r' =>
          if Ascii.eqb c "," then
            '(vs, r'') ← parse_elements fuel' r'; Some (v :: vs, r'')
          else if Ascii.eqb c "]" then Some ([v], r')
          else None
      | EmptyString => None
      end
  end
with parse_members (fuel : nat) (s : string)
  : option (list (string * JsValue) * string) :=
  match fuel with
  | O => None
  | S fuel' =>
      match skip_ws s with
      | String q r0 =>
          if Ascii.eqb q dquote then
            '(k, r1) ← parse_chars r0;
            match skip_ws r1 with
            | String colon r2 =>
                if Ascii.eqb colon ":" then
                  '(v, r3) ← parse_value fuel' r2;
                  match skip_ws r3 with
                  | String c r4 =>
                      if Ascii.eqb c "," then
                        '(ms, r5) ← parse_members fuel' r4;
                        Some ((k, v) :: ms, r5)
                      else if Ascii.eqb c "}" then Some ([(k, v)], r4)
                      else None
                  | EmptyString => None
                  end
                else None
            | EmptyString => None
            end
          else None
      | EmptyString => None
      end
  end.

(** [JSON.parse(text)]; [None] is a thrown [SyntaxError]. *)
Definition parse (text : string) : option JsValue :=
  '(v, r) ← parse_value (2 * String.length text + 2) text;
  match skip_ws r with
  | EmptyString => Some v
  | String _ _ => None
  end.

Definition hex_char (n : nat) : ascii :=
  if (n <? 10)%nat then ascii_of_nat (48 + n) else ascii_of_nat (87 + n).

Fixpoint escape (s : string) : string :=
  match s with
  | EmptyString => EmptyString
  | String c rest =>
      if (Ascii.eqb c dquote || Ascii.eqb c backslash)%bool
      then String backslash (String c (escape rest))
      else if Ascii.eqb c "008" then String backslash (String "b" (escape rest))
      else if Ascii.eqb c "009" then String backslash (String "t" (escape rest))
      else if Ascii.eqb c "010" then String backslash (String "n" (escape rest))
      else if Ascii.eqb c "012" then String backslash (String "f" (escape rest))
      else if Ascii.eqb c "013" then String backslash (String "r" (escape rest))
      else if (nat_of_ascii c <? 32)%nat
      then String backslash
             (String "u" (String "0" (String "0"
                (String (hex_char (nat_of_ascii c / 16))
                   (String (hex_char (nat_of_ascii c mod 16)) (escape rest))))))
      else String c (escape rest)
  end.

Definition quote (s : string) : string :=
  String dquote (escape s +:+ String dquote "").

(** [JSON.stringify(value)] *)
Fixpoint stringify (v : JsValue) : string :=
  match v with
  | JNull => "null"
  | JBool true => "true"
  | JBool false => "false"
  | JNumber lexeme => lexeme
  | JString s => quote s
  | JArray items =>
      "[" +:+
      (fix elements (l : list JsValue) : string :=
         match l with
         | [] => ""
         | [x] => stringify x
         | x :: r => stringify x +:+ "," +:+ elements r
         end) items +:+ "]"
  | JObject props =>
      "{" +:+
      (fix members (l : list (string * JsValue)) : string :=
         match l with
         | [] => ""
         | [(k, x)] => quote k +:+ ":" +:+ stringify x
         | (k, x) :: r => quote k +:+ ":" +:+ stringify x +:+ "," +:+ members r
         end) props +:+ "}"
  end.

End JSON.

(** ** Collaborators *)

Inductive Level : Type := Debug | Info | Warn | Error.

(** The structured argument of a logger call. *)
Inductive LogContext : Type :=
| NoContext
| CtxText (field value : string)
| CtxCount (field : string) (n : nat)
| CtxValue (field : string) (v : JsValue)
| CtxError (field : string) (e : JsError).

(** Calls made to collaborators, in the order they happen. *)
Inductive Event (T : Type) : Type :=
| Logged (level : Level) (message : string) (ctx : LogContext)
| HttpGet (uri : string)
| CacheGet (key : string)
| CacheSet (key : string) (value : T) (ttl : Z).
Arguments Logged {T} level message ctx.
Arguments HttpGet {T} uri.
Arguments CacheGet {T} key.
Arguments CacheSet {T} key value ttl.

Definition is_HttpGet {T} (e : Event T) : bool :=
  match e with HttpGet _ => true | _ => false end.
Definition is_CacheSet {T} (e : Event T) : bool :=
  match e with CacheSet _ _ _ => true | _ => false end.
Definition is_CacheGet {T} (e : Event T) : bool :=
  match e with CacheGet _ => true | _ => false end.

(** How many requests, cache writes and cache reads a log holds. *)
Definition fetches {T} (tr : list (Event T)) : nat :=
  length (List.filter is_HttpGet tr).
Definition cache_writes {T} (tr : list (Event T)) : nat :=
  length (List.filter is_CacheSet tr).
Definition cache_reads {T} (tr : list (Event T)) : nat :=
  length (List.filter is_CacheGet tr).

(** The interface [ICache<T>], as an abstract machine over a store [C].
    A lookup may change the store (an implementation may evict). *)
Class ICache (T C : Type) : Type := {
  cache_get : string -> C -> option T * C;
  cache_set : string -> T -> Z -> C -> C;
  cache_delete : string -> C -> C;
  cache_clear : C -> C;
  cache_size : C -> nat
}.

(** Modelled from the spec: the default in-memory TTL cache
    ([src/cache/InMemoryCache.ts] is not part of the sources at hand).
    An entry is a value with an absolute expiry instant, a lookup past
    the expiry is a miss and drops the entry, and [set] stamps the
    entry with the clock plus the time to live.  The clock is part of the
    store and moves with [elapse]. *)
Record InMemoryCache (T : Type) : Type := {
  clock : Z;
  entries : gmap string (T * Z)
}.
Arguments clock {T} _.
Arguments entries {T} _.

(** Modelled from the spec: the absent [InMemoryCache.ts] when it is
    constructed: no entry. *)
Definition InMemoryCache_empty {T : Type} : InMemoryCache T :=
  {| clock := 0; entries := ∅ |}.

(** Time passing. *)
Definition elapse {T : Type} (millis : Z) (c : InMemoryCache T) : InMemoryCache T :=
  {| clock := clock c + millis; entries := entries c |}.

(** Modelled from the spec: [get] of the absent [InMemoryCache.ts]: a
    lookup past the expiry instant of the entry behaves as absent. *)
Definition InMemoryCache_get {T : Type} (key : string) (c : InMemoryCache T)
  : option T * InMemoryCache T :=
  match entries c !! key with
  | Some (v, expiry) =>
      if clock c <=? expiry then (Some v, c)
      else (None, {| clock := clock c; entries := delete key (entries c) |})
  | None => (None, c)
  end.

(** Modelled from the spec: [set] of the absent [InMemoryCache.ts]: the
    entry for the key becomes the value with expiry now plus [ttl]. *)
Definition InMemoryCache_set {T : Type} (key : string) (value : T) (ttl : Z)
    (c : InMemoryCache T) : InMemoryCache T :=
  {| clock := clock c; entries := <[key := (value, clock c + ttl)]> (entries c) |}.

#[global] Instance InMemoryCache_ICache (T : Type) : ICache T (InMemoryCache T) := {
  cache_get := InMemoryCache_get;
  cache_set := InMemoryCache_set;
  cache_delete key c := {| clock := clock c; entries := delete key (entries c) |};
  cache_clear c := {| clock := clock c; entries := ∅ |};
  cache_size c := size (entries c)
}.

(** The cache of the test suite ([DiscoveryClient.test.ts]): an object of
    [jest.fn()] mocks, whose [get] answers what [mockReturnValue] was given
    and whose [set] only records its arguments. *)
Record MockCache (T : Type) : Type := {
  get_returns : option T;
  set_calls : list (string * T * Z)
}.
Arguments get_returns {T} _.
Arguments set_calls {T} _.

#[global] Instance MockCache_ICache (T : Type) : ICache T (MockCache T) := {
  cache_get key c := (get_returns c, c);
  cache_set key value ttl c :=
    {| get_returns := get_returns c;
       set_calls := set_calls c ++ [(key, value, ttl)] |};
  cache_delete key c := c;
  cache_clear c := c;
  cache_size c := 0%nat
}.

(** ** The state of a client and of the world around it

    [fetching] is the client's in-flight marker (the field [fetchingJWKS]
    of the JWKS client): the request whose completion the shared promise
    waits for.  [issued] counts the requests handed to the transport, so
    that the n-th request is answered by the n-th answer of the network. *)
Record Client (T C : Type) : Type := {
  cache : C;
  fetching : option nat;
  issued : nat;
  trace : list (Event T)
}.
Arguments cache {T C} _.
Arguments fetching {T C} _.
Arguments issued {T C} _.
Arguments trace {T C} _.

(** The state [s] with more calls logged. *)
Definition appended {T C : Type} (s : Client T C) (evs : list (Event T)) : Client T C :=
  {| cache := cache s; fetching := fetching s; issued := issued s;
     trace := trace s ++ evs |}.

(** ** A state and exception monad *)

Definition M (S A : Type) : Type := S -> Outcome A * S.

Definition ret {S A} (a : A) : M S A := fun s => (Return a, s).

Definition bind {S A B} (m : M S A) (k : A -> M S B) : M S B :=
  fun s =>
    match m s with
    | (Return a, s') => k a s'
    | (Throw e, s') => (Throw e, s')
    end.

Definition throw {S A} (e : JsError) : M S A := fun s => (Throw e, s).

(** [try { body } catch (e) { handler(e) }] *)
Definition try_catch {S A} (body : M S A) (handler : JsError -> M S A) : M S A :=
  fun s =>
    match body s with
    | (Return a, s') => (Return a, s')
    | (Throw e, s') => handler e s'
    end.

(** [promise.finally(cleanup)]: the cleanup runs on both paths and the
    outcome of the body is kept. *)
Definition finally {S A} (body : M S A) (cleanup : S -> S) : M S A :=
  fun s =>
    match body s with
    | (r, s') => (r, cleanup s')
    end.

Definition lift_outcome {S A} (r : Outcome A) : M S A := fun s => (r, s).

(** stdpp's monad notations: [x ← m; k] and [m;; k]. *)
#[global] Instance M_ret {S : Type} : MRet (M S) := fun A a => ret a.
#[global] Instance M_bind {S : Type} : MBind (M S) := fun A B k m => bind m k.

Section Effects.
Context {T C : Type} `{ICache T C}.

Definition emit (e : Event T) : M (Client T C) unit :=
  fun s => (Return tt,
            {| cache := cache s; fetching := fetching s;
               issued := issued s; trace := trace s ++ [e] |}).

Definition logger (level : Level) (message : string) (ctx : LogContext)
  : M (Client T C) unit :=
  emit (Logged level message ctx).

(** [this.cache.get(key)] *)
Definition cache_lookup (key : string) : M (Client T C) (option T) :=
  fun s =>
    let '(v, c) := cache_get key (cache s) in
    (Return v,
     {| cache := c; fetching := fetching s;
        issued := issued s; trace := trace s ++ [CacheGet key] |}).

(** [this.cache.set(key, value, ttl)] *)
Definition cache_store (key : string) (value : T) (ttl : Z)
  : M (Client T C) unit :=
  fun s =>
    (Return tt,
     {| cache := cache_set key value ttl (cache s); fetching := fetching s;
        issued := issued s; trace := trace s ++ [CacheSet key value ttl] |}).

(** Calling [this.httpClient.get(uri)] hands a request to the transport
    and yields the number under which it will be answered. *)
Definition http_request (uri : string) : M (Client T C) nat :=
  fun s =>
    (Return (issued s),
     {| cache := cache s; fetching := fetching s;
        issued := S (issued s); trace := trace s ++ [HttpGet uri] |}).

(** Awaiting that request. *)
Definition http_response (http : nat -> HttpOutcome) (n : nat)
  : M (Client T C) string :=
  match http n with
  | Resolved body => ret body
  | Rejected e => throw e
  end.

Definition set_fetching (f : option nat) (s : Client T C) : Client T C :=
  {| cache := cache s; fetching := f; issued := issued s; trace := trace s |}.

Definition get_fetching : M (Client T C) (option nat) :=
  fun s => (Return (fetching s), s).

(** [this.fetchingJWKS = promise] *)
Definition install_marker (n : nat) : M (Client T C) unit :=
  fun s => (Return tt, set_fetching (Some n) s).
End Effects.

(** ** [src/clients/JwksClient.ts] *)

Module JwksClient.

(** The constructor's parameters that the methods read. *)
Record Config : Type := {
  jwksUri : string;
  cacheTtl : Z
}.

Definition default_cacheTtl : Z := 3600000.

(** [private cacheKey: string = 'jwks'] *)
Definition cacheKey : string := "jwks".

Definition validateJwksUri (uri : string) : Outcome unit :=
  if String.eqb uri ""
  then Throw (ClientError "Invalid JWKS URI provided" "INVALID_JWKS_URI" None)
  else Return tt.

(** [new JwksClient(jwksUri, logger, httpClient, cache, cacheTtl)] *)
Definition new (uri : string) (ttl : Z) : Outcome Config :=
  match validateJwksUri uri with
  | Return _ => Return {| jwksUri := uri; cacheTtl := ttl |}
  | Throw e => Throw e
  end.

(** [Array.prototype.find]: the first element, in index order, on which
    the predicate holds; an exception of the predicate ends the search. *)
Fixpoint Array_find (predicate : JsValue -> Outcome bool) (l : list JsValue)
  : Outcome (option JsValue) :=
  match l with
  | [] => Return None
  | k :: rest =>
      match predicate k with
      | Throw e => Throw e
      | Return true => Return (Some k)
      | Return false => Array_find predicate rest
      end
  end.

(** [(k) => k.kid === kid] *)
Definition kid_is (kid : string) (k : JsValue) : Outcome bool :=
  match read_kid k with
  | Return p => Return (strict_eq_string p kid)
  | Throw e => Throw e
  end.

(** [findKey(jwks, kid)], that is [jwks.find((k) => k.kid === kid)]; the
    second call site of [getKey] can pass [undefined], on which [.find]
    throws. *)
Definition findKey (jwks : option (list JsValue)) (kid : string)
  : Outcome (option JsValue) :=
  match jwks with
  | None =>
      Throw (NativeError "TypeError"
               "Cannot read properties of undefined (reading 'find')")
  | Some l => Array_find (kid_is kid) l
  end.

Section Methods.
Context {C : Type} `{ICache (list JsValue) C}.
(** [JSON.parse]: [None] stands for a thrown [SyntaxError]. *)
Variable JSON_parse : string -> option JsValue.
(** The network: what the n-th request settles with. *)
Variable http : nat -> HttpOutcome.
Variable cfg : Config.

Local Abbreviation St := (Client (list JsValue) C).

Definition handleFetchError {A : Type} (error : JsError) : M St A :=
  if instanceof_ClientError error then throw error
  else
    logger Error "Failed to fetch JWKS" (CtxError "error" error);;
    throw (ClientError "Failed to fetch JWKS" "JWKS_FETCH_ERROR" None).

Definition validateJwks (jwks : JsValue) : M St unit :=
  keys ← lift_outcome (read_keys jwks);
  if (negb (truthy keys) || negb (Array_isArray keys))%bool then
    logger Error "JWKS response does not contain keys array"
           (CtxValue "jwks" jwks);;
    throw (ClientError "JWKS response does not contain keys"
             "JWKS_INVALID" None)
  else ret tt.

(** The inner [try { jwks = JSON.parse(response) } catch (parseError)]. *)
Definition parse_response (response : string) : M St JsValue :=
  try_catch
    (match JSON_parse response with
     | Some v => ret v
     | None => throw (NativeError "SyntaxError" "Unexpected token in JSON")
     end)
    (fun parseError =>
       logger Error "Failed to parse JWKS response"
              (CtxError "parseError" parseError);;
       throw (ClientError "Invalid JWKS response format"
                "JWKS_PARSE_ERROR" None)).

(** [jwks.keys] where an array is expected (after [validateJwks]). *)
Definition keys_array (jwks : JsValue) : M St (list JsValue) :=
  keys ← lift_outcome (read_keys jwks);
  match keys with
  | PValue (JArray items) => ret items
  | _ => throw (NativeError "TypeError" "keys is not an array")
  end.

(** The statements of [refreshCache] after [await httpClient.get]. *)
Definition refreshCache_body (response : string) : M St unit :=
  jwks ← parse_response response;
  validateJwks jwks;;
  keys ← keys_array jwks;
  cache_store cacheKey keys (cacheTtl cfg);;
  logger Debug "JWKS cache refreshed" (CtxCount "numberOfKeys" (length keys)).

(** The state [s] once the cache has been given [keys] and that has
    been logged: the two last statements of [refreshCache]. *)
Definition refreshed (keys : list JsValue) (s : St) : St :=
  {| cache := cache_set cacheKey keys (cacheTtl cfg) (cache s);
     fetching := fetching s; issued := issued s;
     trace := trace s ++ [CacheSet cacheKey keys (cacheTtl cfg);
                          Logged Debug "JWKS cache refreshed"
                            (CtxCount "numberOfKeys" (length keys))] |}.

Definition refreshCache : M St unit :=
  try_catch
    (logger Debug "Fetching JWKS from URI" (CtxText "jwksUri" (jwksUri cfg));;
     n ← http_request (jwksUri cfg);
     response ← http_response http n;
     refreshCache_body response)
    handleFetchError.

(** [refreshCache] cut at its [await]: what runs when it is called, and
    what runs once request [n] has settled. *)
Definition refreshCache_begin : M St nat :=
  logger Debug "Fetching JWKS from URI" (CtxText "jwksUri" (jwksUri cfg));;
  http_request (jwksUri cfg).

Definition refreshCache_resume (n : nat) : M St unit :=
  try_catch
    (response ← http_response http n;
     refreshCache_body response)
    handleFetchError.

(** [ensureJWKS], read to completion.  With no operation in flight it
    starts [refreshCache], installs the marker and awaits; otherwise it
    awaits the operation already in flight.  Awaiting lets that
    operation run to its end, after which its [finally] callback clears
    the marker. *)
Definition ensureJWKS : M St unit :=
  f ← get_fetching;
  match f with
  | None =>
      n ← refreshCache_begin;
      install_marker n;;
      finally (refreshCache_resume n) (set_fetching None)
  | Some n =>
      finally (refreshCache_resume n) (set_fetching None)
  end.

(** [getKey], lines 79 to 91: the key set to scan, from the cache or,
    when the cache has none, from a refresh. *)
Definition getKey_load : M St (list JsValue) :=
  cached ← cache_lookup cacheKey;
  match cached with
  | Some jwks =>
      logger Debug ("Cache hit for key: " +:+ cacheKey) NoContext;;
      ret jwks
  | None =>
      ensureJWKS;;
      again ← cache_lookup cacheKey;
      match again with
      | Some jwks => ret jwks
      | None =>
          throw (ClientError "JWKS cache is empty after refresh"
                   "JWKS_FETCH_ERROR" None)
      end
  end.

(** [getKey], lines 93 to 106: the scan, with a refresh and a second scan
    when the first finds nothing. *)
Definition getKey_find (jwks : list JsValue) (kid : string) : M St JsValue :=
  key ← lift_outcome (findKey (Some jwks) kid);
  match key with
  | Some k => ret k
  | None =>
      logger Warn ("Key with kid " +:+ kid +:+ " not found. Refreshing JWKS.")
             NoContext;;
      ensureJWKS;;
      jwks' ← cache_lookup cacheKey;
      key' ← lift_outcome (findKey jwks' kid);
      match key' with
      | Some k => ret k
      | None =>
          throw (ClientError ("No matching key found for kid " +:+ kid)
                   "JWKS_KEY_NOT_FOUND" None)
      end
  end.

Definition getKey (kid : string) : M St JsValue :=
  if String.eqb kid "" then
    throw (ClientError "kid must be provided" "INVALID_KID" None)
  else
    jwks ← getKey_load;
    getKey_find jwks kid.
End Methods.

End JwksClient.


(** ** Concurrent callers of [ensureJWKS]

    The runtime is single-threaded: code runs from one [await] to the next
    without interruption, and what interleaves are these atomic pieces.
    For the in-flight marker there are three of them:
    - a caller runs [ensureJWKS] up to its [await] ([Call]);
    - the request of a running [refreshCache] settles and the rest of
      [refreshCache] runs ([Settle]);
    - the callback given to [.finally] runs ([Finally]), a turn later.
    The other turns of a caller of [getKey] read the cache and scan what
    they read ([Lookup]); they never touch the marker.
    The bookkeeping of the loop ([running], [cleanup], [awaiting],
    [results]) is kept apart from the client's marker, which is the only
    thing the code consults. *)
Module EventLoop.

Inductive Label : Type :=
| Call (caller : nat)
| Settle (n : nat)
| Finally (n : nat)
| Lookup (caller : nat).

Record Loop (C : Type) : Type := {
  client : Client (list JsValue) C;
  (** [refreshCache] operations begun and not yet settled *)
  running : list nat;
  (** settled operations whose [finally] callback is still queued *)
  cleanup : list nat;
  (** which operation each caller awaits *)
  awaiting : list (nat * nat);
  (** how each settled operation ended *)
  results : list (nat * Outcome unit)
}.
Arguments client {C} _.
Arguments running {C} _.
Arguments cleanup {C} _.
Arguments awaiting {C} _.
Arguments results {C} _.

Definition remove_nat (n : nat) (l : list nat) : list nat :=
  List.filter (fun m => negb (Nat.eqb m n)) l.

Definition mem_nat (n : nat) (l : list nat) : bool :=
  existsb (Nat.eqb n) l.

Section Steps.
Context {C : Type} `{ICache (list JsValue) C}.
Variable JSON_parse : string -> option JsValue.
Variable http : nat -> HttpOutcome.
Variable cfg : JwksClient.Config.

Definition initial (c : C) : Loop C :=
  {| client := {| cache := c; fetching := None; issued := 0; trace := [] |};
     running := []; cleanup := []; awaiting := []; results := [] |}.

(** [ensureJWKS] up to the point where it returns the shared promise. *)
Definition call (caller : nat) (st : Loop C) : Loop C :=
  match fetching (client st) with
  | None =>
      match JwksClient.refreshCache_begin cfg (client st) with
      | (Return n, cl) =>
          {| client := set_fetching (Some n) cl;
             running := running st ++ [n];
             cleanup := cleanup st;
             awaiting := awaiting st ++ [(caller, n)];
             results := results st |}
      | (Throw _, _) => st
      end
  | Some n =>
      {| client := client st;
         running := running st;
         cleanup := cleanup st;
         awaiting := awaiting st ++ [(caller, n)];
         results := results st |}
  end.

(** The request of operation [n] settles: the rest of [refreshCache]
    runs, and its promise settles with the outcome. *)
Definition settle (n : nat) (st : Loop C) : Loop C :=
  match JwksClient.refreshCache_resume JSON_parse http cfg n (client st) with
  | (r, cl) =>
      {| client := cl;
         running := remove_nat n (running st);
         cleanup := cleanup st ++ [n];
         awaiting := awaiting st;
         results := results st ++ [(n, r)] |}
  end.

(** [() => { this.fetchingJWKS = null; }] *)
Definition run_finally (n : nat) (st : Loop C) : Loop C :=
  {| client := set_fetching None (client st);
     running := running st;
     cleanup := remove_nat n (cleanup st);
     awaiting := awaiting st;
     results := results st |}.

(** [this.cache.get(this.cacheKey)] in a turn of [getKey]. *)
Definition lookup (st : Loop C) : Loop C :=
  {| client := snd (cache_lookup JwksClient.cacheKey (client st));
     running := running st;
     cleanup := cleanup st;
     awaiting := awaiting st;
     results := results st |}.

(** A direct call of the public [refreshCache] (line 148), up to its
    [await]: it logs and hands a request to the transport without
    reading or setting [fetchingJWKS].  It is not a turn of [step], whose
    callers all go through [ensureJWKS]. *)
Definition refreshCache_direct (st : Loop C) : Loop C :=
  match JwksClient.refreshCache_begin cfg (client st) with
  | (Return n, cl) =>
      {| client := cl;
         running := running st ++ [n];
         cleanup := cleanup st;
         awaiting := awaiting st;
         results := results st |}
  | (Throw _, _) => st
  end.

(** One turn of the loop; [None] when the turn cannot happen now. *)
Definition step (l : Label) (st : Loop C) : option (Loop C) :=
  match l with
  | Call caller => Some (call caller st)
  | Settle n => if mem_nat n (running st) then Some (settle n st) else None
  | Finally n => if mem_nat n (cleanup st) then Some (run_finally n st) else None
  | Lookup _ => Some (lookup st)
  end.

Fixpoint run (ls : list Label) (st : Loop C) : option (Loop C) :=
  match ls with
  | [] => Some st
  | l :: rest =>
      match step l st with
      | Some st' => run rest st'
      | None => None
      end
  end.

(** The operation a caller was handed by its latest call. *)
Definition awaited (caller : nat) (st : Loop C) : option nat :=
  snd <$> last (List.filter (fun p => Nat.eqb (fst p) caller) (awaiting st)).

(** The three phases of the marker: idle; operation [n] in flight; and
    operation [n] settled with its [finally] callback still to run. *)
Definition idle (st : Loop C) : Prop :=
  running st = [] /\ cleanup st = [] /\ fetching (client st) = None.
Definition in_flight (n : nat) (st : Loop C) : Prop :=
  running st = [n] /\ cleanup st = [] /\ fetching (client st) = Some n.
Definition settled (n : nat) (st : Loop C) : Prop :=
  running st = [] /\ cleanup st = [n] /\ fetching (client st) = Some n.
Definition coherent (st : Loop C) : Prop :=
  idle st \/ (exists n, in_flight n st) \/ (exists n, settled n st).
End Steps.

End EventLoop.

(** ** The discovery client

    [src/clients/DiscoveryClient.ts] is not part of the sources at hand;
    its test suite [DiscoveryClient.test.ts] is.  The definitions of this
    module follow section 4.2 of the specification, with the cache key,
    the messages and the error codes the tests expect. *)
Module DiscoveryClient.

Record Config : Type := {
  discoveryUrl : string;
  cacheTtl : Z
}.

Definition cacheKey : string := "discoveryConfig".

(** Modelled from the spec: the constructor of the absent
    [DiscoveryClient.ts], which accepts a non-empty discovery URL and
    otherwise fails with [INVALID_DISCOVERY_URL]. *)
Definition new (url : string) (ttl : Z) : Outcome Config :=
  if String.eqb url ""
  then Throw (ClientError "Invalid discovery URL provided" "INVALID_DISCOVERY_URL" None)
  else Return {| discoveryUrl := url; cacheTtl := ttl |}.

(** Modelled from the spec: the presence check of the absent
    [DiscoveryClient.ts]: the field is present and a non-empty string. *)
Definition nonempty_string_field (config : JsValue) (name : string) : bool :=
  match config with
  | JObject props =>
      match own_property props name with
      | Some (JString s) => negb (String.eqb s "")
      | _ => false
      end
  | _ => false
  end.

Section Methods.
Context {C : Type} `{ICache JsValue C}.
Variable JSON_parse : string -> option JsValue.
Variable http : nat -> HttpOutcome.
Variable cfg : Config.

Local Abbreviation St := (Client JsValue C).

(** Modelled from the spec: the validation step of the absent
    [DiscoveryClient.ts]: issuer and jwks_uri must be present and
    non-empty, else [INVALID_DISCOVERY_CONFIG] naming the field. *)
Definition validateConfig (config : JsValue) : M St unit :=
  if negb (nonempty_string_field config "issuer") then
    throw (ClientError "Invalid discovery configuration: Missing or invalid issuer."
             "INVALID_DISCOVERY_CONFIG" None)
  else if negb (nonempty_string_field config "jwks_uri") then
    throw (ClientError "Invalid discovery configuration: Missing or invalid jwks_uri."
             "INVALID_DISCOVERY_CONFIG" None)
  else ret tt.

(** Modelled from the spec: the error policy of the absent
    [DiscoveryClient.ts]: the failure is logged, a typed error passes
    through and anything else is wrapped into [DISCOVERY_ERROR] with the
    original error as its context. *)
Definition handleFetchError {A : Type} (error : JsError) : M St A :=
  logger Error "Failed to fetch discovery configuration." (CtxError "error" error);;
  if instanceof_ClientError error then throw error
  else throw (ClientError "Unable to fetch discovery configuration"
                "DISCOVERY_ERROR" (Some error)).

(** Modelled from the spec: the fetch of the absent [DiscoveryClient.ts],
    cut at its [await] like [JwksClient.refreshCache]: fetch the discovery
    URL, parse, validate, and only then write the cache with the
    configured time to live. *)
Definition fetch_begin : M St nat :=
  logger Debug "Fetching discovery configuration."
         (CtxText "discoveryUrl" (discoveryUrl cfg));;
  http_request (discoveryUrl cfg).

(** Modelled from the spec: the continuation of the fetch of the absent
    [DiscoveryClient.ts] once request [n] has settled. *)
Definition fetch_resume (n : nat) : M St JsValue :=
  try_catch
    (response ← http_response http n;
     config ← match JSON_parse response with
              | Some v => ret v
              | None => throw (NativeError "SyntaxError" "Unexpected token in JSON")
              end;
     validateConfig config;;
     cache_store cacheKey config (cacheTtl cfg);;
     logger Info "Discovery configuration fetched and cached successfully." NoContext;;
     ret config)
    handleFetchError.

(** Modelled from the spec: the single-flight gate of the absent
    [DiscoveryClient.ts], identical in shape to [JwksClient.ensureJWKS]. *)
Definition fetchOnce : M St JsValue :=
  f ← get_fetching;
  match f with
  | None =>
      n ← fetch_begin;
      install_marker n;;
      finally (fetch_resume n) (set_fetching None)
  | Some n =>
      finally (fetch_resume n) (set_fetching None)
  end.

(** Modelled from the spec: [getDiscoveryConfig(forceRefresh)] of the
    absent [DiscoveryClient.ts]: if not forcing and the cache holds a live
    entry, return it; otherwise fetch. *)
Definition getDiscoveryConfig (forceRefresh : bool) : M St JsValue :=
  if forceRefresh then
    logger Debug "Force refresh enabled. Fetching discovery config." NoContext;;
    fetchOnce
  else
    cached ← cache_lookup cacheKey;
    match cached with
    | Some config => ret config
    | None =>
        logger Debug "Cache miss for discovery config." NoContext;;
        fetchOnce
    end.
End Methods.

End DiscoveryClient.

(** ** The signature verifier

    [src/utils/SignatureVerifier.ts] is exported by [src/utils/index.ts]
    and is not part of the sources at hand. *)
Module SignatureVerifier.

Inductive Digest : Type := SHA256 | SHA384 | SHA512.
Inductive Scheme : Type := RSA_PKCS1 | RSA_PSS | ECDSA.
Inductive KeyFamily : Type := Rsa | Ec.

(** Modelled from the spec: the mapping of the absent
    [SignatureVerifier.ts] from an algorithm name to a digest and a
    signature scheme. *)
Definition algorithm (alg : string) : option (Digest * Scheme) :=
  if String.eqb alg "RS256" then Some (SHA256, RSA_PKCS1)
  else if String.eqb alg "RS384" then Some (SHA384, RSA_PKCS1)
  else if String.eqb alg "RS512" then Some (SHA512, RSA_PKCS1)
  else if String.eqb alg "PS256" then Some (SHA256, RSA_PSS)
  else if String.eqb alg "PS384" then Some (SHA384, RSA_PSS)
  else if String.eqb alg "PS512" then Some (SHA512, RSA_PSS)
  else if String.eqb alg "ES256" then Some (SHA256, ECDSA)
  else if String.eqb alg "ES384" then Some (SHA384, ECDSA)
  else if String.eqb alg "ES512" then Some (SHA512, ECDSA)
  else None.

Definition scheme_family (s : Scheme) : KeyFamily :=
  match s with
  | RSA_PKCS1 | RSA_PSS => Rsa
  | ECDSA => Ec
  end.

Definition family_eqb (a b : KeyFamily) : bool :=
  match a, b with
  | Rsa, Rsa | Ec, Ec => true
  | _, _ => false
  end.

Section Verify.
(** The family of the key a PEM text holds, if it parses. *)
Variable key_family : string -> option KeyFamily.
(** The cryptographic primitive. *)
Variable crypto_verify :
  Digest -> Scheme -> string -> list Byte.byte -> list Byte.byte -> bool.

(** Modelled from the spec: [verify] of the absent [SignatureVerifier.ts]:
    reject at once if [alg] is none or not in [allowedAlgs]; map [alg] to
    a digest and a scheme consistent with the family of the key, failing
    closed on a mismatch; then verify, any failure being [false]. *)
Definition verify (signingInput signature : list Byte.byte) (alg : string)
    (publicKeyPem : string) (allowedAlgs : gset string) : bool :=
  if (String.eqb alg "none" || negb (bool_decide (alg ∈ allowedAlgs)))%bool
  then false
  else
    match algorithm alg with
    | None => false
    | Some (digest, scheme) =>
        match key_family publicKeyPem with
        | Some family =>
            if family_eqb family (scheme_family scheme)
            then crypto_verify digest scheme publicKeyPem signingInput signature
            else false
        | None => false
        end
    end.
End Verify.

End SignatureVerifier.

(** ** Concrete worlds

    An identity provider with RSA keys, a network given by the list of its
    answers (and failing after the last), and clients over the two
    caches. *)
Module Scenario.

Definition jwk (kid n : string) : JsValue :=
  JObject [("kid", JString kid); ("kty", JString "RSA");
           ("n", JString n); ("e", JString "AQAB")].

(** [JSON.stringify({ keys })], as the test suite builds its answers. *)
Definition jwks_body (keys : list JsValue) : string :=
  JSON.stringify (JObject [("keys", JArray keys)]).

Definition network_failure : JsError := NativeError "Error" "Network failure".

Definition network (answers : list HttpOutcome) (n : nat) : HttpOutcome :=
  nth n answers (Rejected network_failure).

Definition cfg : JwksClient.Config :=
  {| JwksClient.jwksUri := "https://idp.example/jwks";
     JwksClient.cacheTtl := JwksClient.default_cacheTtl |}.

(** A client whose in-memory cache is empty. *)
Definition fresh : Client (list JsValue) (InMemoryCache (list JsValue)) :=
  {| cache := InMemoryCache_empty; fetching := None; issued := 0; trace := [] |}.

(** A client whose in-memory cache holds [keys], live. *)
Definition holding (keys : list JsValue)
  : Client (list JsValue) (InMemoryCache (list JsValue)) :=
  {| cache := cache_set JwksClient.cacheKey keys JwksClient.default_cacheTtl
                InMemoryCache_empty;
     fetching := None; issued := 0; trace := [] |}.

(** The same client once the entry has outlived its time to live. *)
Definition stale (keys : list JsValue)
  : Client (list JsValue) (InMemoryCache (list JsValue)) :=
  {| cache := elapse (JwksClient.default_cacheTtl + 1) (cache (holding keys));
     fetching := None; issued := 0; trace := [] |}.

(** A client over the mocked cache, [get] set to return [answer]. *)
Definition mocked (answer : option (list JsValue))
  : Client (list JsValue) (MockCache (list JsValue)) :=
  {| cache := {| get_returns := answer; set_calls := [] |};
     fetching := None; issued := 0; trace := [] |}.

(** The provider serves one key, [k1]. *)
Definition one_key : list HttpOutcome :=
  [Resolved (jwks_body [jwk "k1" "AQ"]); Resolved (jwks_body [jwk "k1" "AQ"])].

(** A key set after a rotation that kept the kid: two entries named
    [k2]. *)
Definition rotated : list JsValue :=
  [jwk "k1" "AQ"; jwk "k2" "Ag"; jwk "k2" "Aw"].

(** Three callers while the first fetch is in flight or settling, one
    more after the marker is cleared, whose fetch fails, and one after
    that failure. *)
Definition interleaving : list EventLoop.Label :=
  [EventLoop.Lookup 1; EventLoop.Call 1; EventLoop.Lookup 2; EventLoop.Call 2;
   EventLoop.Settle 0; EventLoop.Call 3; EventLoop.Finally 0;
   EventLoop.Lookup 1; EventLoop.Call 4; EventLoop.Settle 1;
   EventLoop.Finally 1; EventLoop.Call 5].

(** The document and the mocks of [DiscoveryClient.test.ts]. *)
Definition discoveryUrl : string :=
  "https://example.com/.well-known/openid-configuration".

Definition sampleConfig : JsValue :=
  JObject [("issuer", JString "https://example.com/");
           ("authorization_endpoint", JString "https://example.com/oauth2/authorize");
           ("token_endpoint", JString "https://example.com/oauth2/token");
           ("userinfo_endpoint", JString "https://example.com/userinfo");
           ("jwks_uri", JString "https://example.com/.well-known/jwks.json")].

Definition discovery_cfg : DiscoveryClient.Config :=
  {| DiscoveryClient.discoveryUrl := discoveryUrl;
     DiscoveryClient.cacheTtl := 3600000 |}.

(** [cache.get] mocked to return [sampleConfig]. *)
Definition discovery_mocked : Client JsValue (MockCache JsValue) :=
  {| cache := {| get_returns := Some sampleConfig; set_calls := [] |};
     fetching := None; issued := 0; trace := [] |}.

Definition interleaved : option (EventLoop.Loop (InMemoryCache (list JsValue))) :=
  EventLoop.run JSON.parse (network [Resolved (jwks_body [jwk "k1" "AQ"])]) cfg
    interleaving (EventLoop.initial InMemoryCache_empty).

End Scenario.

(** ** [src/clients/UserInfoClient.ts] *)

Module UserInfoClient.

(** Calls made to collaborators, in the order they happen. *)
Inductive Call : Type :=
| GetAccessToken
| Get (url headers : string)
| LogDebug (message : string) (userInfo : JsValue)
| LogError (message : string) (error : JsError).

Definition is_Get (c : Call) : bool :=
  match c with Get _ _ => true | _ => false end.

(** [!accessToken] for a [string | null]. *)
Definition no_token (accessToken : option string) : bool :=
  match accessToken with
  | None => true
  | Some t => String.eqb t ""
  end.

(** [{ Authorization: `Bearer ${accessToken}` }] *)
Definition headers (accessToken : string) : JsValue :=
  JObject [("Authorization", JString ("Bearer " +:+ accessToken))].

Section Methods.
(** [this.tokenManager.getAccessToken()], awaited. *)
Variable getAccessToken : Outcome (option string).
(** [this.discoveryConfig.userinfo_endpoint] *)
Variable userinfo_endpoint : string.
(** [this.httpClient.get(url, headers)], awaited. *)
Variable httpClient_get : string -> string -> HttpOutcome.
Variable JSON_parse : string -> option JsValue.

Local Abbreviation St := (list Call).

Definition record (c : Call) : M St unit :=
  fun s => (Return tt, (s ++ [c])%list).

(** [getUserInfo]; the test [!accessToken] holds for [null] and for the
    empty string. *)
Definition getUserInfo : M St JsValue :=
  accessToken ← (record GetAccessToken;; lift_outcome getAccessToken);
  match accessToken with
  | Some token =>
      if String.eqb token "" then
        throw (ClientError "No valid access token available" "NO_ACCESS_TOKEN" None)
      else
        try_catch
          (response ← (record (Get userinfo_endpoint (JSON.stringify (headers token)));;
                       lift_outcome
                         match httpClient_get userinfo_endpoint
                                 (JSON.stringify (headers token)) with
                         | Resolved body => Return body
                         | Rejected e => Throw e
                         end);
           userInfo ← match JSON_parse response with
                      | Some v => ret v
                      | None => throw (NativeError "SyntaxError" "Unexpected token in JSON")
                      end;
           record (LogDebug "Fetched user info successfully" userInfo);;
           ret userInfo)
          (fun error =>
             record (LogError "Failed to fetch user info" error);;
             throw (ClientError "User info retrieval failed" "USERINFO_ERROR"
                      (Some error)))
  | None =>
      throw (ClientError "No valid access token available" "NO_ACCESS_TOKEN" None)
  end.
End Methods.

End UserInfoClient.

(** ** More concrete worlds *)

Module Worlds.

(** A configuration whose entries are born expired. *)
Definition short_lived : JwksClient.Config :=
  {| JwksClient.jwksUri := "https://idp.example/jwks";
     JwksClient.cacheTtl := -1 |}.

(** The provider after a rotation: [k1] is gone, [k2] is served. *)
Definition after_rotation : list HttpOutcome :=
  [Resolved (Scenario.jwks_body [Scenario.jwk "k2" "Ag"; Scenario.jwk "k3" "Aw"])].

(** A provider that answers with an array holding [null]. *)
Definition null_entry : list HttpOutcome :=
  [Resolved (JSON.stringify (JObject [("keys", JArray [JNull])]))].

Definition userinfo_endpoint : string := "https://example.com/userinfo".

Definition userinfo_body : string :=
  JSON.stringify (JObject [("sub", JString "248289761001"); ("name", JString "Jane Doe")]).

(** A transport that answers the bearer of [token] and fails with a
    typed error for anyone else. *)
Definition userinfo_transport (token : string) (url headers : string) : HttpOutcome :=
  if (String.eqb url userinfo_endpoint &&
      String.eqb headers (JSON.stringify (UserInfoClient.headers token)))%bool
  then Resolved userinfo_body
  else Rejected (ClientError "Request failed with status 401" "HTTP_ERROR" None).

(** A cached key set with a [null] before the key [k2]. *)
Definition with_null : list JsValue :=
  [Scenario.jwk "k1" "AQ"; JNull; Scenario.jwk "k2" "Ag"].

(** The in-memory cache has no entry under [key]. *)
Definition vacant {T : Type} (key : string) (c : InMemoryCache T) : Prop :=
  entries c !! key = None.

(** The in-memory cache has the live entry [v] under [key]. *)
Definition holds {T : Type} (key : string) (v : T) (c : InMemoryCache T) : Prop :=
  exists expiry, entries c !! key = Some (v, expiry) /\ (clock c <= expiry)%Z.

(** The discovery client of the test suite when [cache.get] is mocked to
    return [undefined]. *)
Definition discovery_cold : Client JsValue (MockCache JsValue) :=
  {| cache := {| get_returns := None; set_calls := [] |};
     fetching := None; issued := 0; trace := [] |}.

(** Where [Scenario.interleaving] takes a fresh client. *)
Definition interleaved_end : EventLoop.Loop (InMemoryCache (list JsValue)) :=
  default (EventLoop.initial InMemoryCache_empty) Scenario.interleaved.

End Worlds.

(** How many [finally] callbacks a schedule runs: the fetch cycles it
    completes. *)
Definition finished_cycles (ls : list EventLoop.Label) : nat :=
  length (List.filter
            (fun l => match l with EventLoop.Finally _ => true | _ => false end) ls).

(** ** Concurrent calls of [getKey]

    [getKey] cut at its two [await]s.  A call runs up to the first
    [await] it meets ([Start]), and goes on from there once the promise
    it awaits has settled ([Resume]), that is once the operation has
    settled and its [finally] callback has run.  Between those turns the
    turns of other calls and of the fetches ([Settle], [Finally]) can
    run. *)
Module Tasks.

Inductive Task : Type :=
| Loading (kid : string) (n : nat)
| Finding (kid : string) (n : nat)
| Done (r : Outcome JsValue).

Inductive Turn : Type :=
| Start (kid : string)
| Resume (i : nat)
| Settle (n : nat)
| Finally (n : nat).

Record State (C : Type) : Type := {
  loop : EventLoop.Loop C;
  tasks : list Task
}.
Arguments loop {C} _.
Arguments tasks {C} _.

Section Steps.
Context {C : Type} `{ICache (list JsValue) C}.
Variable JSON_parse : string -> option JsValue.
Variable http : nat -> HttpOutcome.
Variable cfg : JwksClient.Config.

Definition with_client (cl : Client (list JsValue) C) (l : EventLoop.Loop C)
  : EventLoop.Loop C :=
  {| EventLoop.client := cl;
     EventLoop.running := EventLoop.running l;
     EventLoop.cleanup := EventLoop.cleanup l;
     EventLoop.awaiting := EventLoop.awaiting l;
     EventLoop.results := EventLoop.results l |}.

(** [await this.ensureJWKS()], up to the [await]: the operation the
    caller is handed, and the loop after the call. *)
Definition join (caller : nat) (l : EventLoop.Loop C) : nat * EventLoop.Loop C :=
  (match fetching (EventLoop.client l) with
   | Some n => n
   | None => issued (EventLoop.client l)
   end,
   EventLoop.call cfg caller l).

(** Lines 93 to 96: the scan, and on a miss the warning and the second
    [ensureJWKS]. *)
Definition scan (caller : nat) (kid : string) (jwks : list JsValue)
    (l : EventLoop.Loop C) : Task * EventLoop.Loop C :=
  match JwksClient.findKey (Some jwks) kid with
  | Throw e => (Done (Throw e), l)
  | Return (Some k) => (Done (Return k), l)
  | Return None =>
      let warned :=
        appended (EventLoop.client l)
          [Logged Warn ("Key with kid " +:+ kid +:+ " not found. Refreshing JWKS.")
             NoContext] in
      let '(n, l') := join caller (with_client warned l) in
      (Finding kid n, l')
  end.

(** Lines 75 to 83. *)
Definition start (caller : nat) (kid : string) (l : EventLoop.Loop C)
  : Task * EventLoop.Loop C :=
  if String.eqb kid "" then
    (Done (Throw (ClientError "kid must be provided" "INVALID_KID" None)), l)
  else
    match cache_lookup JwksClient.cacheKey (EventLoop.client l) with
    | (Return (Some jwks), cl) =>
        scan caller kid jwks
          (with_client
             (appended cl
                [Logged Debug ("Cache hit for key: " +:+ JwksClient.cacheKey)
                   NoContext]) l)
    | (Return None, cl) =>
        let '(n, l') := join caller (with_client cl l) in
        (Loading kid n, l')
    | (Throw e, cl) => (Done (Throw e), with_client cl l)
    end.

(** How operation [n] ended, once the promise handed to its callers has
    settled. *)
Definition settled_with (n : nat) (l : EventLoop.Loop C) : option (Outcome unit) :=
  if (EventLoop.mem_nat n (EventLoop.running l) ||
      EventLoop.mem_nat n (EventLoop.cleanup l))%bool
  then None
  else snd <$> List.find (fun p => Nat.eqb (fst p) n) (EventLoop.results l).

(** Lines 84 to 93 and 97 to 106: what follows each [await]. *)
Definition resume (caller : nat) (t : Task) (l : EventLoop.Loop C)
  : option (Task * EventLoop.Loop C) :=
  match t with
  | Loading kid n =>
      match settled_with n l with
      | None => None
      | Some (Throw e) => Some (Done (Throw e), l)
      | Some (Return _) =>
          match cache_lookup JwksClient.cacheKey (EventLoop.client l) with
          | (Return (Some jwks), cl) => Some (scan caller kid jwks (with_client cl l))
          | (Return None, cl) =>
              Some (Done (Throw (ClientError "JWKS cache is empty after refresh"
                                   "JWKS_FETCH_ERROR" None)),
                    with_client cl l)
          | (Throw e, cl) => Some (Done (Throw e), with_client cl l)
          end
      end
  | Finding kid n =>
      match settled_with n l with
      | None => None
      | Some (Throw e) => Some (Done (Throw e), l)
      | Some (Return _) =>
          match cache_lookup JwksClient.cacheKey (EventLoop.client l) with
          | (Return jwks', cl) =>
              Some (match JwksClient.findKey jwks' kid with
                    | Throw e => Done (Throw e)
                    | Return (Some k) => Done (Return k)
                    | Return None =>
                        Done (Throw (ClientError
                                       ("No matching key found for kid " +:+ kid)
                                       "JWKS_KEY_NOT_FOUND" None))
                    end,
                    with_client cl l)
          | (Throw e, cl) => Some (Done (Throw e), with_client cl l)
          end
      end
  | Done _ => None
  end.

Definition step (turn : Turn) (st : State C) : option (State C) :=
  match turn with
  | Start kid =>
      let '(t, l) := start (length (tasks st)) kid (loop st) in
      Some {| loop := l; tasks := tasks st ++ [t] |}
  | Resume i =>
      t ← tasks st !! i;
      '(t', l) ← resume i t (loop st);
      Some {| loop := l; tasks := <[i := t']> (tasks st) |}
  | Settle n =>
      l ← EventLoop.step JSON_parse http cfg (EventLoop.Settle n) (loop st);
      Some {| loop := l; tasks := tasks st |}
  | Finally n =>
      l ← EventLoop.step JSON_parse http cfg (EventLoop.Finally n) (loop st);
      Some {| loop := l; tasks := tasks st |}
  end.

Fixpoint run (turns : list Turn) (st : State C) : option (State C) :=
  match turns with
  | [] => Some st
  | turn :: rest =>
      match step turn st with
      | Some st' => run rest st'
      | None => None
      end
  end.

(** The turns that take a suspended call to its next stop when nothing
    else runs in between. *)
Definition next_turns (i : nat) (t : Task) : list Turn :=
  match t with
  | Loading _ n | Finding _ n => [Settle n; Finally n; Resume i]
  | Done _ => []
  end.

(** One call, alone, turn by turn from start to end. *)
Definition alone (kid : string) (st : State C) : option (State C) :=
  let i := length (tasks st) in
  st1 ← step (Start kid) st;
  t1 ← tasks st1 !! i;
  st2 ← run (next_turns i t1) st1;
  t2 ← tasks st2 !! i;
  run (next_turns i t2) st2.
End Steps.

End Tasks.

(** * Properties *)

(** ** Logs *)

Lemma fetches_app {T} (a b : list (Event T)) :
  fetches (a ++ b) = (fetches a + fetches b)%nat.
Proof. unfold fetches. now rewrite List.filter_app, length_app. Qed.

Lemma cache_writes_app {T} (a b : list (Event T)) :
  cache_writes (a ++ b) = (cache_writes a + cache_writes b)%nat.
Proof. unfold cache_writes. now rewrite List.filter_app, length_app. Qed.

Lemma cache_reads_app {T} (a b : list (Event T)) :
  cache_reads (a ++ b) = (cache_reads a + cache_reads b)%nat.
Proof. unfold cache_reads. now rewrite List.filter_app, length_app. Qed.

Lemma appended_nil {T C} (s : Client T C) : appended s [] = s.
Proof. destruct s. unfold appended. simpl. now rewrite app_nil_r. Qed.

Lemma appended_appended {T C} (s : Client T C) (a b : list (Event T)) :
  appended (appended s a) b = appended s (a ++ b).
Proof. unfold appended. simpl. now rewrite app_assoc. Qed.

(** Unfolds the monad and the calls to collaborators. *)
Ltac run_monad :=
  unfold mbind, M_bind, mret, M_ret, bind, ret, throw, try_catch, finally,
    lift_outcome, logger, emit, cache_lookup, cache_store, http_request,
    http_response, get_fetching, install_marker in *.

(** ** [JwksClient.refreshCache] *)

Section RefreshCache.
Context {C : Type} `{ICache (list JsValue) C}.
Variable JSON_parse : string -> option JsValue.
Variable http : nat -> HttpOutcome.
Variable cfg : JwksClient.Config.

Local Abbreviation St := (Client (list JsValue) C).
Local Abbreviation refreshCache := (JwksClient.refreshCache JSON_parse http cfg).
Local Abbreviation refreshCache_begin := (JwksClient.refreshCache_begin cfg).
Local Abbreviation refreshCache_resume := (JwksClient.refreshCache_resume JSON_parse http cfg).
Local Abbreviation ttl := (JwksClient.cacheTtl cfg).
Local Abbreviation uri := (JwksClient.jwksUri cfg).

Local Abbreviation fetch_error :=
  (ClientError "Failed to fetch JWKS" "JWKS_FETCH_ERROR" None).
Local Abbreviation parse_error :=
  (ClientError "Invalid JWKS response format" "JWKS_PARSE_ERROR" None).
Local Abbreviation invalid_error :=
  (ClientError "JWKS response does not contain keys" "JWKS_INVALID" None).

(** The test of [validateJwks] is a test for an array: the truthiness
    of [keys] never decides. *)
Lemma validateJwks_condition (keys : PropRead) :
  (negb (truthy keys) || negb (Array_isArray keys))%bool = negb (Array_isArray keys).
Proof. destruct keys as [|[]|]; simpl; now rewrite ?orb_true_r. Qed.

Lemma read_keys_throws_native jwks e :
  read_keys jwks = Throw e -> instanceof_ClientError e = false.
Proof. destruct jwks; simpl; intros E; inversion E; reflexivity. Qed.

(** What the continuation of [refreshCache] does, case by case. *)
Lemma refreshCache_resume_eq n s :
  refreshCache_resume n s =
  match http n with
  | Rejected e =>
      if instanceof_ClientError e then (Throw e, s)
      else (Throw fetch_error,
            appended s [Logged Error "Failed to fetch JWKS" (CtxError "error" e)])
  | Resolved body =>
      match JSON_parse body with
      | None =>
          (Throw parse_error,
           appended s [Logged Error "Failed to parse JWKS response"
                         (CtxError "parseError"
                            (NativeError "SyntaxError" "Unexpected token in JSON"))])
      | Some jwks =>
          match read_keys jwks with
          | Throw e =>
              (Throw fetch_error,
               appended s [Logged Error "Failed to fetch JWKS" (CtxError "error" e)])
          | Return (PValue (JArray keys)) => (Return tt, JwksClient.refreshed cfg keys s)
          | Return _ =>
              (Throw invalid_error,
               appended s [Logged Error "JWKS response does not contain keys array"
                             (CtxValue "jwks" jwks)])
          end
      end
  end.
Proof.
  unfold JwksClient.refreshCache_resume, JwksClient.refreshCache_body,
    JwksClient.parse_response, JwksClient.validateJwks, JwksClient.keys_array,
    JwksClient.handleFetchError.
  run_monad.
  destruct (http n) as [body|e]; simpl.
  - destruct (JSON_parse body) as [jwks|]; simpl; [|reflexivity].
    destruct (read_keys jwks) as [p|e] eqn:Ek; simpl.
    + destruct p as [|v|m]; simpl; try reflexivity.
      destruct v; simpl; rewrite ?orb_true_r; simpl; try reflexivity.
      unfold JwksClient.refreshed. now rewrite <- app_assoc.
    + rewrite (read_keys_throws_native _ _ Ek). reflexivity.
  - destruct (instanceof_ClientError e); reflexivity.
Qed.

(** Calling [refreshCache] logs, hands one request to the transport and
    stops at the [await]. *)
Lemma refreshCache_begin_eq (s : St) :
  refreshCache_begin s =
  (Return (issued s),
   {| cache := cache s; fetching := fetching s; issued := S (issued s);
      trace := trace s ++ [Logged Debug "Fetching JWKS from URI" (CtxText "jwksUri" uri);
                           HttpGet uri] |}).
Proof.
  unfold JwksClient.refreshCache_begin. run_monad. simpl.
  now rewrite <- app_assoc.
Qed.

(** [refreshCache] is its beginning followed by its continuation. *)
Lemma refreshCache_split (s : St) :
  refreshCache s = refreshCache_resume (issued s) (snd (refreshCache_begin s)).
Proof.
  rewrite refreshCache_begin_eq.
  unfold JwksClient.refreshCache, JwksClient.refreshCache_resume.
  run_monad. simpl. now rewrite <- app_assoc.
Qed.

(** The continuation issues no request, leaves the marker alone, and on
    failure leaves the cache alone. *)
Lemma refreshCache_resume_frame n (s : St) :
  exists delta,
    trace (snd (refreshCache_resume n s)) = (trace s ++ delta)%list /\
    fetches delta = 0%nat /\
    cache_reads delta = 0%nat /\
    fetching (snd (refreshCache_resume n s)) = fetching s /\
    issued (snd (refreshCache_resume n s)) = issued s /\
    (forall e, fst (refreshCache_resume n s) = Throw e ->
               cache (snd (refreshCache_resume n s)) = cache s /\
               cache_writes delta = 0%nat).
Proof.
  rewrite refreshCache_resume_eq.
  destruct (http n) as [body|e];
    [destruct (JSON_parse body) as [jwks|];
       [destruct (read_keys jwks) as [[|[]|]|]|]
    |destruct (instanceof_ClientError e)];
    simpl;
    first [ eexists; split; [reflexivity|]
          | exists []; split; [now rewrite app_nil_r|] ];
    repeat split; try reflexivity; congruence.
Qed.

Lemma refreshCache_frame (s : St) :
  exists delta,
    trace (snd (refreshCache s)) = (trace s ++ delta)%list /\
    fetches delta = 1%nat /\
    cache_reads delta = 0%nat /\
    fetching (snd (refreshCache s)) = fetching s /\
    issued (snd (refreshCache s)) = S (issued s) /\
    (forall e, fst (refreshCache s) = Throw e ->
               cache (snd (refreshCache s)) = cache s /\
               cache_writes delta = 0%nat).
Proof.
  rewrite refreshCache_split, refreshCache_begin_eq. simpl.
  match goal with |- context [refreshCache_resume ?n ?s1] =>
    destruct (refreshCache_resume_frame n s1) as (d & Ht & Hf & Hr & Hm & Hi & Hc)
  end.
  simpl in *.
  exists ([Logged Debug "Fetching JWKS from URI" (CtxText "jwksUri" uri); HttpGet uri] ++ d)%list.
  rewrite Ht, <- app_assoc, fetches_app, cache_reads_app, cache_writes_app, Hf, Hr.
  repeat split; try assumption; try reflexivity;
    match goal with E : _ = Throw _ |- _ => destruct (Hc _ E) as [Hc1 Hc2] end;
    [exact Hc1 | now rewrite Hc2].
Qed.

(** C3.  A failing [refreshCache], whatever made it fail (the transport,
    the parser or the shape of the answer), writes nothing to the cache:
    the store is the one it started with and the calls it made hold no
    [cache.set]. *)
Theorem refreshCache_failure_leaves_cache (s s' : St) (e : JsError) :
  refreshCache s = (Throw e, s') ->
  cache s' = cache s /\
  exists delta, trace s' = (trace s ++ delta)%list /\ cache_writes delta = 0%nat.
Proof.
  intros E.
  destruct (refreshCache_frame s) as (d & Ht & _ & _ & _ & _ & Hc).
  rewrite E in *. simpl in *.
  destruct (Hc e eq_refl) as [Hcache Hw].
  split; [exact Hcache|]. exists d. split; assumption.
Qed.

(** C5, as the code has it.  When the transport fails with [cause]:
    a typed [ClientError] is rethrown as it is; any other error is logged
    and replaced by a [ClientError] with code [JWKS_FETCH_ERROR] whose
    context is empty, so the cause is in the log and not in the error.
    [handleFetchError] passes every typed error through, also those raised
    while parsing and validating. *)
Theorem refreshCache_transport_failure (s : St) (cause : JsError) :
  http (issued s) = Rejected cause ->
  fst (refreshCache s) =
    Throw (if instanceof_ClientError cause then cause
           else ClientError "Failed to fetch JWKS" "JWKS_FETCH_ERROR" None) /\
  (instanceof_ClientError cause = false ->
   last (trace (snd (refreshCache s))) =
     Some (Logged Error "Failed to fetch JWKS" (CtxError "error" cause))) /\
  (forall (e : JsError) (s1 : St),
     instanceof_ClientError e = true ->
     JwksClient.handleFetchError (A := unit) e s1 = (Throw e, s1)).
Proof.
  intros Hn.
  rewrite refreshCache_split, refreshCache_begin_eq, refreshCache_resume_eq.
  simpl. rewrite Hn.
  destruct (instanceof_ClientError cause) eqn:Ei; simpl.
  - repeat split; try congruence.
    intros e s1 He. unfold JwksClient.handleFetchError. now rewrite He.
  - repeat split.
    + intros _. now rewrite last_snoc.
    + intros e s1 He. unfold JwksClient.handleFetchError. now rewrite He.
Qed.

(** A body that does not parse fails with [JWKS_PARSE_ERROR]. *)
Lemma refreshCache_parse_failure (s : St) (body : string) :
  http (issued s) = Resolved body ->
  JSON_parse body = None ->
  fst (refreshCache s) =
    Throw (ClientError "Invalid JWKS response format" "JWKS_PARSE_ERROR" None).
Proof.
  intros Hn Hp.
  rewrite refreshCache_split, refreshCache_begin_eq, refreshCache_resume_eq.
  simpl. now rewrite Hn, Hp.
Qed.

(** A parsed answer other than [null] whose [keys] is not an array fails
    with [JWKS_INVALID]. *)
Lemma refreshCache_invalid_shape (s : St) (body : string) (jwks : JsValue) :
  http (issued s) = Resolved body ->
  JSON_parse body = Some jwks ->
  jwks <> JNull ->
  (forall keys, read_keys jwks <> Return (PValue (JArray keys))) ->
  fst (refreshCache s) =
    Throw (ClientError "JWKS response does not contain keys" "JWKS_INVALID" None).
Proof.
  intros Hn Hp Hnull Hshape.
  rewrite refreshCache_split, refreshCache_begin_eq, refreshCache_resume_eq.
  simpl. rewrite Hn, Hp.
  destruct (read_keys jwks) as [[|[]|]|] eqn:Ek; try reflexivity.
  - now destruct (Hshape items).
  - destruct jwks; simpl in Ek; congruence.
Qed.

(** The parsed answer [null] fails with [JWKS_FETCH_ERROR]: reading
    [keys] of it throws a [TypeError], which is no typed error. *)
Lemma refreshCache_null (s : St) (body : string) :
  http (issued s) = Resolved body ->
  JSON_parse body = Some JNull ->
  fst (refreshCache s) =
    Throw (ClientError "Failed to fetch JWKS" "JWKS_FETCH_ERROR" None).
Proof.
  intros Hn Hp.
  rewrite refreshCache_split, refreshCache_begin_eq, refreshCache_resume_eq.
  simpl. now rewrite Hn, Hp.
Qed.

End RefreshCache.

(** ** [JwksClient.ensureJWKS] and [JwksClient.getKey] *)

Section GetKey.
Context {C : Type} `{ICache (list JsValue) C}.
Variable JSON_parse : string -> option JsValue.
Variable http : nat -> HttpOutcome.
Variable cfg : JwksClient.Config.

Local Abbreviation St := (Client (list JsValue) C).
Local Abbreviation refreshCache_begin := (JwksClient.refreshCache_begin cfg).
Local Abbreviation refreshCache_resume := (JwksClient.refreshCache_resume JSON_parse http cfg).
Local Abbreviation ensureJWKS := (JwksClient.ensureJWKS JSON_parse http cfg).
Local Abbreviation getKey := (JwksClient.getKey JSON_parse http cfg).
Local Abbreviation uri := (JwksClient.jwksUri cfg).

Lemma ensureJWKS_eq (s : St) :
  ensureJWKS s =
  match fetching s with
  | None =>
      let r := refreshCache_resume (issued s)
                 (set_fetching (Some (issued s)) (snd (refreshCache_begin s))) in
      (fst r, set_fetching None (snd r))
  | Some n =>
      let r := refreshCache_resume n s in
      (fst r, set_fetching None (snd r))
  end.
Proof.
  unfold JwksClient.ensureJWKS.
  unfold mbind, M_bind, bind, get_fetching, install_marker, finally.
  destruct (fetching s) as [n|].
  - now destruct (refreshCache_resume n s).
  - rewrite refreshCache_begin_eq. simpl.
    now destruct (refreshCache_resume _ _).
Qed.

(** [ensureJWKS] starts a fetch exactly when none is in flight, reads no
    cache, and leaves the marker cleared however the fetch ends. *)
Lemma ensureJWKS_frame (s : St) :
  exists delta,
    trace (snd (ensureJWKS s)) = (trace s ++ delta)%list /\
    fetches delta = match fetching s with Some _ => 0 | None => 1 end%nat /\
    cache_reads delta = 0%nat /\
    fetching (snd (ensureJWKS s)) = None /\
    issued (snd (ensureJWKS s)) =
      match fetching s with Some _ => issued s | None => S (issued s) end.
Proof.
  rewrite ensureJWKS_eq.
  destruct (fetching s) as [n|] eqn:Ef.
  - destruct (refreshCache_resume_frame JSON_parse http cfg n s)
      as (d & Ht & Hf & Hr & _ & Hi & _).
    exists d. simpl. repeat split; assumption.
  - rewrite refreshCache_begin_eq. simpl.
    match goal with |- context [refreshCache_resume ?n ?s1] =>
      destruct (refreshCache_resume_frame JSON_parse http cfg n s1)
        as (d & Ht & Hf & Hr & _ & Hi & _)
    end.
    simpl in *.
    exists ([Logged Debug "Fetching JWKS from URI" (CtxText "jwksUri" uri);
             HttpGet uri] ++ d)%list.
    rewrite Ht, <- app_assoc, fetches_app, cache_reads_app, Hf, Hr.
    repeat split; assumption.
Qed.

(** Names the run of [ensureJWKS] in the goal and what is known of it. *)
Ltac run_ensureJWKS :=
  match goal with
  | |- context [JwksClient.ensureJWKS ?p ?h ?c ?st] =>
      let d := fresh "d" in
      let r := fresh "r" in
      let s2 := fresh "s" in
      destruct (ensureJWKS_frame st) as (d & ?Ht & ?Hf & ?Hr & ?Hm & ?Hi);
      destruct (JwksClient.ensureJWKS p h c st) as [r s2];
      simpl in *
  end.

(** Splits [trace s' = trace s ++ ?delta] off the goal, reading the log
    of the run from what is known. *)
Ltac read_log :=
  eexists; split;
  [ simpl; repeat match goal with Ht : trace _ = _ |- _ => rewrite Ht; clear Ht end;
    rewrite <- ?app_assoc; reflexivity
  | rewrite ?fetches_app, ?cache_reads_app ].

Lemma Array_find_native (kid : string) (l : list JsValue) (e : JsError) :
  JwksClient.Array_find (JwksClient.kid_is kid) l = Throw e ->
  instanceof_ClientError e = false.
Proof.
  induction l as [|k rest IH]; simpl; [discriminate|].
  destruct (JwksClient.kid_is kid k) as [[|]|e'] eqn:Ek;
    [discriminate | exact IH |].
  intros E. inversion E; subst.
  unfold JwksClient.kid_is in Ek.
  destruct k; simpl in Ek; try discriminate. now inversion Ek.
Qed.

(** The first half of [getKey]: no fetch on a hit; on a miss, one fetch
    unless one is in flight already, and the marker is cleared. *)
Lemma getKey_load_frame (s : St) :
  exists delta,
    trace (snd (JwksClient.getKey_load JSON_parse http cfg s)) = (trace s ++ delta)%list /\
    fetches delta =
      match fst (cache_get JwksClient.cacheKey (cache s)) with
      | Some _ => 0
      | None => match fetching s with Some _ => 0 | None => 1 end
      end%nat /\
    fetching (snd (JwksClient.getKey_load JSON_parse http cfg s)) =
      match fst (cache_get JwksClient.cacheKey (cache s)) with
      | Some _ => fetching s
      | None => None
      end.
Proof.
  unfold JwksClient.getKey_load. run_monad. simpl.
  destruct (cache_get JwksClient.cacheKey (cache s)) as [[jwks|] c1]; simpl.
  - read_log. split; reflexivity.
  - run_ensureJWKS.
    destruct r as [[]|e]; simpl.
    + destruct (cache_get JwksClient.cacheKey (cache s0)) as [[jwks|] c2]; simpl;
        (read_log; rewrite Hf; split; [unfold fetches; simpl; lia | assumption]).
    + read_log. rewrite Hf. split; [unfold fetches; simpl; lia | assumption].
Qed.

(** The second half of [getKey]: at most one fetch, and none when one is
    in flight already. *)
Lemma getKey_find_frame (jwks : list JsValue) (kid : string) (s : St) :
  exists delta,
    trace (snd (JwksClient.getKey_find JSON_parse http cfg jwks kid s)) =
      (trace s ++ delta)%list /\
    (fetches delta <= match fetching s with Some _ => 0 | None => 1 end)%nat.
Proof.
  unfold JwksClient.getKey_find. run_monad. simpl.
  destruct (JwksClient.Array_find _ jwks) as [[k|]|e]; simpl.
  - exists []. rewrite app_nil_r. split; [reflexivity | unfold fetches; simpl; lia].
  - run_ensureJWKS.
    destruct r as [[]|e]; simpl.
    + destruct (cache_get JwksClient.cacheKey (cache s0)) as [jwks' c2]; simpl.
      destruct (JwksClient.findKey jwks' kid) as [[k|]|e]; simpl;
        (read_log; rewrite Hf; unfold fetches; simpl; lia).
    + read_log. rewrite Hf. unfold fetches; simpl; lia.
  - exists []. rewrite app_nil_r. split; [reflexivity | unfold fetches; simpl; lia].
Qed.

(** C1, as the code has it.  One call of [getKey] hands at most two
    requests to the transport, and at most one when the cache lookup at
    entry returns a key set.  (With a miss at entry the first refresh
    fills the cache and a second one follows when the kid is not in the
    fresh set.) *)
Theorem getKey_refresh_bound (kid : string) (s : St) :
  exists delta,
    trace (snd (getKey kid s)) = (trace s ++ delta)%list /\
    (fetches delta <= 2)%nat /\
    (fst (cache_get JwksClient.cacheKey (cache s)) <> None ->
     (fetches delta <= 1)%nat).
Proof.
  unfold JwksClient.getKey.
  destruct (String.eqb kid "").
  { exists []. simpl. rewrite app_nil_r.
    repeat split; unfold fetches; simpl; lia. }
  unfold mbind, M_bind, bind.
  destruct (getKey_load_frame s) as (d1 & Ht1 & Hf1 & Hm1).
  destruct (JwksClient.getKey_load JSON_parse http cfg s) as [[jwks|e] s1];
    simpl in *.
  - destruct (getKey_find_frame jwks kid s1) as (d2 & Ht2 & Hf2).
    exists (d1 ++ d2)%list.
    rewrite Ht2, Ht1, <- app_assoc, fetches_app, Hf1.
    rewrite Hm1 in Hf2.
    destruct (fst (cache_get JwksClient.cacheKey (cache s))) as [cached|];
      repeat split; try congruence;
      destruct (fetching s); lia.
  - exists d1. rewrite Hf1.
    destruct (fst (cache_get JwksClient.cacheKey (cache s))) as [cached|];
      repeat split; try assumption; try congruence;
      destruct (fetching s); lia.
Qed.

(** [find] returns the first element on which the predicate holds. *)
Lemma Array_find_first (predicate : JsValue -> Outcome bool)
    (pre post : list JsValue) (k : JsValue) :
  Forall (fun x => predicate x = Return false) pre ->
  predicate k = Return true ->
  JwksClient.Array_find predicate (pre ++ k :: post) = Return (Some k).
Proof.
  intros Hpre Hk. induction Hpre as [|x pre Hx _ IH]; simpl.
  - now rewrite Hk.
  - now rewrite Hx.
Qed.

(** What [findKey] returns is an object, hence truthy: the tests
    [if (!key)] of [getKey] are tests for [undefined]. *)
Lemma kid_is_true_object (kid : string) (k : JsValue) :
  JwksClient.kid_is kid k = Return true ->
  (exists props, k = JObject props) /\ truthy_value k = true.
Proof.
  unfold JwksClient.kid_is.
  destruct k; simpl; try discriminate. eauto.
Qed.

(** On an object, as every [Jwk] is, the predicate of [findKey] does
    not throw. *)
Lemma kid_is_object (kid : string) (props : list (string * JsValue)) :
  exists b, JwksClient.kid_is kid (JObject props) = Return b.
Proof. unfold JwksClient.kid_is. simpl. eauto. Qed.

(** C8.  When the cached key set holds an entry with the wanted kid,
    whatever follows that entry (other entries with the same kid
    included), [getKey] returns the first such entry in sequence order,
    and nothing is fetched. *)
Theorem getKey_first_match (kid : string) (s : St) (c1 : C)
    (pre post : list JsValue) (k : JsValue) :
  kid <> "" ->
  cache_get JwksClient.cacheKey (cache s) = (Some (pre ++ k :: post)%list, c1) ->
  Forall (fun x => JwksClient.kid_is kid x = Return false) pre ->
  JwksClient.kid_is kid k = Return true ->
  fst (getKey kid s) = Return k /\
  fetches (trace (snd (getKey kid s))) = fetches (trace s).
Proof.
  intros Hkid Hc Hpre Hk.
  unfold JwksClient.getKey.
  apply String.eqb_neq in Hkid. rewrite Hkid.
  unfold JwksClient.getKey_load, JwksClient.getKey_find, JwksClient.findKey.
  run_monad. simpl. rewrite Hc. simpl.
  rewrite (Array_find_first _ pre post k Hpre Hk). simpl.
  split; [reflexivity|].
  rewrite !fetches_app. unfold fetches. simpl. lia.
Qed.

(** C10.  When the lookup at entry finds nothing, the refresh succeeds
    and the lookup after it finds nothing either, [getKey] fails with
    [JWKS_FETCH_ERROR] and the message of line 87, not with
    [JWKS_KEY_NOT_FOUND]. *)
Theorem getKey_empty_after_refresh (kid : string) (s s1 s2 s3 : St) :
  kid <> "" ->
  cache_lookup JwksClient.cacheKey s = (Return None, s1) ->
  ensureJWKS s1 = (Return tt, s2) ->
  cache_lookup JwksClient.cacheKey s2 = (Return None, s3) ->
  getKey kid s =
    (Throw (ClientError "JWKS cache is empty after refresh" "JWKS_FETCH_ERROR" None),
     s3).
Proof.
  intros Hkid H1 H2 H3.
  unfold JwksClient.getKey.
  apply String.eqb_neq in Hkid. rewrite Hkid.
  unfold JwksClient.getKey_load.
  unfold mbind, M_bind, bind.
  rewrite H1. rewrite H2. rewrite H3. reflexivity.
Qed.
End GetKey.

(** ** The properties at concrete worlds *)

(** C1, the claim as stated fails: from an empty cache, with a provider
    that serves only [k1], one call [getKey("k2")] hands two requests to
    the transport before it fails with [JWKS_KEY_NOT_FOUND]. *)
Lemma getKey_two_refreshes :
  let r := JwksClient.getKey JSON.parse (Scenario.network Scenario.one_key)
             Scenario.cfg "k2" Scenario.fresh in
  fst r = Throw (ClientError "No matching key found for kid k2"
                   "JWKS_KEY_NOT_FOUND" None) /\
  fetches (trace (snd r)) = 2%nat.
Proof. vm_compute. split; reflexivity. Qed.

(** The same from a cache whose entry has expired. *)
Lemma getKey_stale_two_refreshes :
  let r := JwksClient.getKey JSON.parse (Scenario.network Scenario.one_key)
             Scenario.cfg "k2" (Scenario.stale [Scenario.jwk "k0" "AA"]) in
  fst r = Throw (ClientError "No matching key found for kid k2"
                   "JWKS_KEY_NOT_FOUND" None) /\
  fetches (trace (snd r)) = 2%nat.
Proof. vm_compute. split; reflexivity. Qed.

(** With a live key set in the cache the same call fetches once. *)
Lemma getKey_one_refresh :
  let r := JwksClient.getKey JSON.parse (Scenario.network Scenario.one_key)
             Scenario.cfg "k2" (Scenario.holding [Scenario.jwk "k0" "AA"]) in
  fst r = Throw (ClientError "No matching key found for kid k2"
                   "JWKS_KEY_NOT_FOUND" None) /\
  fetches (trace (snd r)) = 1%nat.
Proof. vm_compute. split; reflexivity. Qed.

Lemma refreshCache_failure_leaves_cache_witness :
  let s := Scenario.holding [Scenario.jwk "k0" "AA"] in
  let r := JwksClient.refreshCache JSON.parse (Scenario.network []) Scenario.cfg s in
  cache (snd r) = cache s /\
  exists delta, trace (snd r) = (trace s ++ delta)%list /\ cache_writes delta = 0%nat.
Proof.
  apply (refreshCache_failure_leaves_cache JSON.parse (Scenario.network [])
           Scenario.cfg _ _
           (ClientError "Failed to fetch JWKS" "JWKS_FETCH_ERROR" None)).
  vm_compute. reflexivity.
Defined.

(** C5, the claim as stated fails: when the network is down, the error
    thrown has code [JWKS_FETCH_ERROR] and an empty context; the cause
    is not carried by it. *)
Lemma refreshCache_drops_cause :
  let r := JwksClient.refreshCache JSON.parse (Scenario.network [])
             Scenario.cfg Scenario.fresh in
  Scenario.network [] 0%nat = Rejected Scenario.network_failure /\
  fst r = Throw (ClientError "Failed to fetch JWKS" "JWKS_FETCH_ERROR" None) /\
  match fst r with
  | Throw e => error_context e = None
  | Return _ => False
  end.
Proof. vm_compute. repeat split; reflexivity. Qed.

Lemma refreshCache_transport_failure_witness :
  let typed := ClientError "Request failed with status 503" "HTTP_ERROR" None in
  let r := JwksClient.refreshCache JSON.parse (Scenario.network [Rejected typed])
             Scenario.cfg Scenario.fresh in
  fst r = Throw typed.
Proof.
  exact (proj1 (refreshCache_transport_failure JSON.parse
                  (Scenario.network
                     [Rejected (ClientError "Request failed with status 503"
                                  "HTTP_ERROR" None)])
                  Scenario.cfg Scenario.fresh _ eq_refl)).
Defined.

(** C6, at the answer [null]: the body parses, has no [keys], and the
    call fails with [JWKS_FETCH_ERROR] where the documentation of
    [validateJwks] promises [JWKS_INVALID]. *)
Theorem refreshCache_null_body :
  JSON.parse "null" = Some JNull /\
  fst (JwksClient.refreshCache JSON.parse (Scenario.network [Resolved "null"])
         Scenario.cfg Scenario.fresh) =
    Throw (ClientError "Failed to fetch JWKS" "JWKS_FETCH_ERROR" None).
Proof. vm_compute. split; reflexivity. Qed.

(** The other shapes, at concrete answers: text that is no JSON, an
    object without [keys], and [keys] that is no array. *)
Lemma refreshCache_shapes :
  let run body :=
    fst (JwksClient.refreshCache JSON.parse (Scenario.network [Resolved body])
           Scenario.cfg Scenario.fresh) in
  run "invalid-json" =
    Throw (ClientError "Invalid JWKS response format" "JWKS_PARSE_ERROR" None) /\
  run "{}" =
    Throw (ClientError "JWKS response does not contain keys" "JWKS_INVALID" None) /\
  run (JSON.stringify (JObject [("keys", JString "k1")])) =
    Throw (ClientError "JWKS response does not contain keys" "JWKS_INVALID" None) /\
  run "[]" =
    Throw (ClientError "JWKS response does not contain keys" "JWKS_INVALID" None) /\
  run "7" =
    Throw (ClientError "JWKS response does not contain keys" "JWKS_INVALID" None).
Proof. vm_compute. repeat split; reflexivity. Qed.


(** On the in-memory cache: after a successful refresh the entry under
    the cache key is the fetched sequence with its expiry, whatever the
    entry was, and the other entries are as they were. *)
Lemma refreshCache_replaces_entry
    (JSON_parse : string -> option JsValue) (http : nat -> HttpOutcome)
    (cfg : JwksClient.Config)
    (s s' : Client (list JsValue) (InMemoryCache (list JsValue))) :
  JwksClient.refreshCache JSON_parse http cfg s = (Return tt, s') ->
  exists body jwks keys,
    http (issued s) = Resolved body /\
    JSON_parse body = Some jwks /\
    read_keys jwks = Return (PValue (JArray keys)) /\
    entries (cache s') !! JwksClient.cacheKey =
      Some (keys, clock (cache s) + JwksClient.cacheTtl cfg) /\
    forall key, key <> JwksClient.cacheKey ->
                entries (cache s') !! key = entries (cache s) !! key.
Proof.
  rewrite refreshCache_split, refreshCache_begin_eq, refreshCache_resume_eq.
  simpl.
  destruct (http (issued s)) as [body|e] eqn:En; simpl;
    [|destruct (instanceof_ClientError e); discriminate].
  destruct (JSON_parse body) as [jwks|] eqn:Ep; simpl; [|discriminate].
  destruct (read_keys jwks) as [[|[]|]|] eqn:Ek; simpl; try discriminate.
  intros E. inversion E; subst; clear E.
  exists body, jwks, items. simpl. repeat split; try assumption.
  - apply lookup_insert_eq.
  - intros key Hne. now apply lookup_insert_ne.
Qed.

(** The fetched set replaces the cached one: the old key is gone. *)
Lemma refreshCache_replaces_not_merges :
  let s := Scenario.holding [Scenario.jwk "k0" "AA"] in
  let r := JwksClient.refreshCache JSON.parse (Scenario.network Scenario.one_key)
             Scenario.cfg s in
  fst (cache_get JwksClient.cacheKey (cache s)) = Some [Scenario.jwk "k0" "AA"] /\
  fst (cache_get JwksClient.cacheKey (cache (snd r))) = Some [Scenario.jwk "k1" "AQ"].
Proof. vm_compute. split; reflexivity. Qed.

Lemma getKey_first_match_witness :
  let s := Scenario.holding Scenario.rotated in
  let r := JwksClient.getKey JSON.parse (Scenario.network []) Scenario.cfg "k2" s in
  fst r = Return (Scenario.jwk "k2" "Ag") /\
  fetches (trace (snd r)) = fetches (trace s).
Proof.
  apply (getKey_first_match JSON.parse (Scenario.network []) Scenario.cfg "k2"
           (Scenario.holding Scenario.rotated)
           (cache (Scenario.holding Scenario.rotated))
           [Scenario.jwk "k1" "AQ"] [Scenario.jwk "k2" "Aw"] (Scenario.jwk "k2" "Ag")).
  - discriminate.
  - vm_compute. reflexivity.
  - repeat constructor.
  - reflexivity.
Defined.

Lemma getKey_empty_after_refresh_witness :
  let s := Scenario.mocked None in
  let http := Scenario.network Scenario.one_key in
  let s1 := snd (cache_lookup JwksClient.cacheKey s) in
  let s2 := snd (JwksClient.ensureJWKS JSON.parse http Scenario.cfg s1) in
  let s3 := snd (cache_lookup JwksClient.cacheKey s2) in
  JwksClient.getKey JSON.parse http Scenario.cfg "k1" s =
    (Throw (ClientError "JWKS cache is empty after refresh" "JWKS_FETCH_ERROR" None),
     s3).
Proof.
  intros s http s1 s2 s3.
  apply (getKey_empty_after_refresh JSON.parse http Scenario.cfg "k1" s s1 s2 s3).
  - discriminate.
  - vm_compute. reflexivity.
  - vm_compute. reflexivity.
  - vm_compute. reflexivity.
Defined.

(** ** The single-flight marker under interleaving *)

Section SingleFlight.
Context {C : Type} `{ICache (list JsValue) C}.
Variable JSON_parse : string -> option JsValue.
Variable http : nat -> HttpOutcome.
Variable cfg : JwksClient.Config.

Local Abbreviation Loop := (EventLoop.Loop C).
Local Abbreviation step := (EventLoop.step JSON_parse http cfg).
Local Abbreviation run := (EventLoop.run JSON_parse http cfg).
Local Abbreviation call := (EventLoop.call cfg).
Local Abbreviation settle := (EventLoop.settle JSON_parse http cfg).

Lemma remove_nat_self (n : nat) : EventLoop.remove_nat n [n] = [].
Proof. unfold EventLoop.remove_nat. simpl. now rewrite Nat.eqb_refl. Qed.

Lemma mem_nat_singleton (n m : nat) : EventLoop.mem_nat n [m] = true -> n = m.
Proof.
  unfold EventLoop.mem_nat. simpl. rewrite orb_false_r. apply Nat.eqb_eq.
Qed.

(** A call with no marker set begins a fetch and installs the marker. *)
Lemma call_idle (caller : nat) (st : Loop) :
  EventLoop.idle st ->
  EventLoop.in_flight (issued (EventLoop.client st)) (call caller st) /\
  issued (EventLoop.client (call caller st)) = S (issued (EventLoop.client st)) /\
  EventLoop.awaited caller (call caller st) = Some (issued (EventLoop.client st)).
Proof.
  intros (Hr & Hc & Hm).
  unfold EventLoop.call. rewrite Hm, refreshCache_begin_eq.
  unfold EventLoop.in_flight, EventLoop.awaited. simpl.
  rewrite Hr, Hc, List.filter_app. simpl. rewrite Nat.eqb_refl, last_snoc.
  repeat split.
Qed.

(** A call that finds the marker set joins: nothing is begun. *)
Lemma call_joins (caller n : nat) (st : Loop) :
  fetching (EventLoop.client st) = Some n ->
  EventLoop.client (call caller st) = EventLoop.client st /\
  EventLoop.running (call caller st) = EventLoop.running st /\
  EventLoop.cleanup (call caller st) = EventLoop.cleanup st /\
  EventLoop.awaited caller (call caller st) = Some n.
Proof.
  intros Hm. unfold EventLoop.call. rewrite Hm.
  unfold EventLoop.awaited. simpl.
  rewrite List.filter_app. simpl. rewrite Nat.eqb_refl, last_snoc.
  repeat split.
Qed.

(** Settling moves the operation from running to cleanup and keeps the
    marker, however the operation ended. *)
Lemma settle_in_flight (n : nat) (st : Loop) :
  EventLoop.in_flight n st -> EventLoop.settled n (settle n st).
Proof.
  intros (Hr & Hc & Hm).
  unfold EventLoop.settle, EventLoop.settled.
  destruct (refreshCache_resume_frame JSON_parse http cfg n (EventLoop.client st))
    as (d & _ & _ & _ & Hf & _).
  destruct (JwksClient.refreshCache_resume JSON_parse http cfg n (EventLoop.client st))
    as [r cl].
  simpl in *. rewrite Hr, Hc, remove_nat_self, Hf, Hm. repeat split.
Qed.

Lemma finally_settled (n : nat) (st : Loop) :
  EventLoop.settled n st -> EventLoop.idle (EventLoop.run_finally n st).
Proof.
  intros (Hr & Hc & Hm).
  unfold EventLoop.run_finally, EventLoop.idle. simpl.
  rewrite Hr, Hc, remove_nat_self. repeat split.
Qed.

Lemma lookup_phase (st : Loop) :
  EventLoop.running (EventLoop.lookup st) = EventLoop.running st /\
  EventLoop.cleanup (EventLoop.lookup st) = EventLoop.cleanup st /\
  fetching (EventLoop.client (EventLoop.lookup st)) = fetching (EventLoop.client st).
Proof.
  unfold EventLoop.lookup, cache_lookup. simpl.
  now destruct (cache_get JwksClient.cacheKey (cache (EventLoop.client st))).
Qed.

Lemma step_coherent (l : EventLoop.Label) (st st' : Loop) :
  EventLoop.coherent st -> step l st = Some st' -> EventLoop.coherent st'.
Proof.
  intros Hst Hstep. destruct l as [caller|n|n|caller]; simpl in Hstep.
  - inversion Hstep; subst; clear Hstep.
    destruct Hst as [Hi|[(n & Hf)|(n & Hs)]].
    + right; left. eexists. apply (call_idle caller st Hi).
    + destruct Hf as (Hr & Hc & Hm).
      destruct (call_joins caller n st Hm) as (Ecl & Er & Ec & _).
      right; left. exists n. unfold EventLoop.in_flight.
      rewrite Ecl, Er, Ec. repeat split; assumption.
    + destruct Hs as (Hr & Hc & Hm).
      destruct (call_joins caller n st Hm) as (Ecl & Er & Ec & _).
      right; right. exists n. unfold EventLoop.settled.
      rewrite Ecl, Er, Ec. repeat split; assumption.
  - destruct (EventLoop.mem_nat n (EventLoop.running st)) eqn:Hmem; [|discriminate].
    inversion Hstep; subst; clear Hstep.
    destruct Hst as [(Hr & _)|[(m & Hf)|(m & Hr & _)]];
      try (rewrite Hr in Hmem; discriminate).
    assert (n = m) as ->
      by (destruct Hf as (Hr & _); rewrite Hr in Hmem; now apply mem_nat_singleton).
    right; right. exists m. now apply settle_in_flight.
  - destruct (EventLoop.mem_nat n (EventLoop.cleanup st)) eqn:Hmem; [|discriminate].
    inversion Hstep; subst; clear Hstep.
    destruct Hst as [(_ & Hc & _)|[(m & _ & Hc & _)|(m & Hs)]];
      try (rewrite Hc in Hmem; discriminate).
    assert (n = m) as ->
      by (destruct Hs as (_ & Hc & _); rewrite Hc in Hmem; now apply mem_nat_singleton).
    left. now apply finally_settled.
  - inversion Hstep; subst; clear Hstep.
    destruct (lookup_phase st) as (Er & Ec & Em).
    unfold EventLoop.coherent, EventLoop.idle, EventLoop.in_flight, EventLoop.settled.
    now rewrite Er, Ec, Em.
Qed.


Lemma initial_coherent (c : C) : EventLoop.coherent (EventLoop.initial c).
Proof. left. repeat split. Qed.





End SingleFlight.


(** ** Direct calls of [refreshCache] *)

Section DirectRefresh.
Context {C : Type} `{ICache (list JsValue) C}.
Variable cfg : JwksClient.Config.

(** A direct call of [refreshCache] begins an operation of its own in
    every state, whatever the marker holds, and leaves the marker as it
    was. *)
Lemma refreshCache_direct_ungated (st : EventLoop.Loop C) :
  EventLoop.running (EventLoop.refreshCache_direct cfg st) =
    (EventLoop.running st ++ [issued (EventLoop.client st)])%list /\
  fetching (EventLoop.client (EventLoop.refreshCache_direct cfg st)) =
    fetching (EventLoop.client st) /\
  fetches (trace (EventLoop.client (EventLoop.refreshCache_direct cfg st))) =
    S (fetches (trace (EventLoop.client st))).
Proof.
  unfold EventLoop.refreshCache_direct. rewrite refreshCache_begin_eq.
  cbn [EventLoop.running EventLoop.client fetching trace].
  rewrite fetches_app. unfold fetches at 2. simpl. repeat split. lia.
Qed.
End DirectRefresh.


(** ** The discovery client *)

Section Discovery.
Context {C : Type} `{ICache JsValue C}.
Variable JSON_parse : string -> option JsValue.
Variable http : nat -> HttpOutcome.
Variable cfg : DiscoveryClient.Config.

Local Abbreviation St := (Client JsValue C).
Local Abbreviation fetch_resume := (DiscoveryClient.fetch_resume JSON_parse http cfg).
Local Abbreviation fetchOnce := (DiscoveryClient.fetchOnce JSON_parse http cfg).
Local Abbreviation getDiscoveryConfig :=
  (DiscoveryClient.getDiscoveryConfig JSON_parse http cfg).
Local Abbreviation url := (DiscoveryClient.discoveryUrl cfg).
Local Abbreviation ttl := (DiscoveryClient.cacheTtl cfg).

(** The continuation of the fetch reads no cache and hands nothing to
    the transport; what it returns is the parsed answer to request [n],
    which it has written to the cache. *)
Lemma fetch_resume_frame (n : nat) (s : St) :
  exists delta,
    trace (snd (fetch_resume n s)) = (trace s ++ delta)%list /\
    fetches delta = 0%nat /\
    cache_reads delta = 0%nat /\
    fetching (snd (fetch_resume n s)) = fetching s /\
    (forall config,
       fst (fetch_resume n s) = Return config ->
       exists body,
         http n = Resolved body /\
         JSON_parse body = Some config /\
         cache (snd (fetch_resume n s)) =
           cache_set DiscoveryClient.cacheKey config ttl (cache s) /\
         List.filter is_CacheSet delta =
           [CacheSet DiscoveryClient.cacheKey config ttl]).
Proof.
  unfold DiscoveryClient.fetch_resume, DiscoveryClient.validateConfig,
    DiscoveryClient.handleFetchError.
  run_monad.
  destruct (http n) as [body|e] eqn:En; simpl.
  - destruct (JSON_parse body) as [config|] eqn:Ep; simpl.
    + destruct (DiscoveryClient.nonempty_string_field config "issuer"); simpl;
        [destruct (DiscoveryClient.nonempty_string_field config "jwks_uri"); simpl|].
      * eexists. split; [rewrite <- app_assoc; reflexivity|].
        repeat split. intros config' E. inversion E; subst.
        exists body. repeat split; assumption.
      * eexists. split; [reflexivity|]. repeat split. discriminate.
      * eexists. split; [reflexivity|]. repeat split. discriminate.
    + eexists. split; [reflexivity|]. repeat split. discriminate.
  - destruct (instanceof_ClientError e); simpl;
      (eexists; split; [reflexivity|]; repeat split; discriminate).
Qed.

(** C9.  Whatever the cache holds, [getDiscoveryConfig(true)] makes no
    cache lookup; it hands one request to the transport, or awaits the
    one already in flight; and what it returns on success is the parsed
    answer to that request, which it has written to the cache under the
    cache key with the configured time to live. *)
Theorem getDiscoveryConfig_force_refresh (s : St) :
  exists delta,
    trace (snd (getDiscoveryConfig true s)) = (trace s ++ delta)%list /\
    cache_reads delta = 0%nat /\
    fetches delta = match fetching s with Some _ => 0 | None => 1 end%nat /\
    (forall config,
       fst (getDiscoveryConfig true s) = Return config ->
       exists body,
         http (match fetching s with Some n => n | None => issued s end) =
           Resolved body /\
         JSON_parse body = Some config /\
         cache (snd (getDiscoveryConfig true s)) =
           cache_set DiscoveryClient.cacheKey config ttl (cache s) /\
         List.filter is_CacheSet delta =
           [CacheSet DiscoveryClient.cacheKey config ttl]).
Proof.
  unfold DiscoveryClient.getDiscoveryConfig, DiscoveryClient.fetchOnce,
    DiscoveryClient.fetch_begin.
  run_monad. simpl.
  destruct (fetching s) as [n|] eqn:Ef; simpl.
  - match goal with |- context [fetch_resume n ?s1] =>
      destruct (fetch_resume_frame n s1) as (d & Ht & Hf & Hr & _ & Hok);
      destruct (fetch_resume n s1) as [r s2]
    end.
    simpl in *.
    eexists. split; [rewrite Ht, <- app_assoc; reflexivity|].
    rewrite cache_reads_app, fetches_app, Hf, Hr, List.filter_app.
    repeat split. intros config E.
    destruct r as [config'|e]; inversion E; subst.
    destruct (Hok config eq_refl) as (body & Hb & Hp & Hc & Hw).
    exists body. rewrite Hw. repeat split; assumption.
  - match goal with |- context [fetch_resume ?n ?s1] =>
      destruct (fetch_resume_frame n s1) as (d & Ht & Hf & Hr & _ & Hok);
      destruct (fetch_resume n s1) as [r s2]
    end.
    simpl in *.
    eexists. split; [rewrite Ht, <- !app_assoc; reflexivity|].
    rewrite !cache_reads_app, !fetches_app, Hf, Hr, !List.filter_app.
    repeat split. intros config E.
    destruct r as [config'|e]; inversion E; subst.
    destruct (Hok config eq_refl) as (body & Hb & Hp & Hc & Hw).
    exists body. rewrite Hw. repeat split; assumption.
Qed.
End Discovery.

(** The test [should force refresh the config even if cached], replayed:
    the cache is mocked to hold the sample document, the transport
    answers with it, and the call returns it after one [httpClient.get]
    and one [cache.set], without any [cache.get]. *)
Lemma getDiscoveryConfig_force_test :
  let http := Scenario.network [Resolved (JSON.stringify Scenario.sampleConfig)] in
  let r := DiscoveryClient.getDiscoveryConfig JSON.parse http Scenario.discovery_cfg
             true Scenario.discovery_mocked in
  fst r = Return Scenario.sampleConfig /\
  cache_reads (trace (snd r)) = 0%nat /\
  List.filter is_HttpGet (trace (snd r)) = [HttpGet Scenario.discoveryUrl] /\
  set_calls (cache (snd r)) = [("discoveryConfig", Scenario.sampleConfig, 3600000)].
Proof. vm_compute. repeat split; reflexivity. Qed.

(** ** The signature verifier *)

(** C4.  [verify] rejects when [alg] is none or outside [allowedAlgs],
    whatever the signature, the signing input, the key and the
    cryptographic primitive are, also when the allow-list itself holds
    the name none. *)
Theorem verify_rejects_disallowed_alg
    (key_family : string -> option SignatureVerifier.KeyFamily)
    (crypto_verify : SignatureVerifier.Digest -> SignatureVerifier.Scheme ->
                     string -> list Byte.byte -> list Byte.byte -> bool)
    (signingInput signature : list Byte.byte) (alg publicKeyPem : string)
    (allowedAlgs : gset string) :
  alg = "none" \/ alg ∉ allowedAlgs ->
  SignatureVerifier.verify key_family crypto_verify signingInput signature alg
    publicKeyPem allowedAlgs = false.
Proof.
  intros [->|Hnot]; unfold SignatureVerifier.verify.
  - reflexivity.
  - rewrite (bool_decide_eq_false_2 _ Hnot). simpl.
    now rewrite orb_true_r.
Qed.

Lemma verify_rejects_disallowed_alg_witness :
  let accept_all (_ : SignatureVerifier.Digest) (_ : SignatureVerifier.Scheme)
                 (_ : string) (_ _ : list Byte.byte) := true in
  let rsa (_ : string) := Some SignatureVerifier.Rsa in
  SignatureVerifier.verify rsa accept_all [] [] "none" "" {["none"; "RS256"]} = false /\
  SignatureVerifier.verify rsa accept_all [] [Byte.x01] "RS256" "" {["ES256"]} = false.
Proof.
  split.
  - apply verify_rejects_disallowed_alg. left. reflexivity.
  - apply verify_rejects_disallowed_alg. right. set_solver.
Defined.

(** * Further properties of the code *)

(** ** More on [JwksClient.refreshCache] and [JwksClient.ensureJWKS] *)

Section RefreshCacheMore.
Context {C : Type} `{ICache (list JsValue) C}.
Variable JSON_parse : string -> option JsValue.
Variable http : nat -> HttpOutcome.
Variable cfg : JwksClient.Config.

Local Abbreviation St := (Client (list JsValue) C).
Local Abbreviation refreshCache := (JwksClient.refreshCache JSON_parse http cfg).
Local Abbreviation refreshCache_begin := (JwksClient.refreshCache_begin cfg).
Local Abbreviation refreshCache_resume := (JwksClient.refreshCache_resume JSON_parse http cfg).
Local Abbreviation ensureJWKS := (JwksClient.ensureJWKS JSON_parse http cfg).

(** [jwks.keys] is an array exactly on an object whose member [keys],
    the last of that name, is one. *)
Lemma read_keys_array (jwks : JsValue) (keys : list JsValue) :
  read_keys jwks = Return (PValue (JArray keys)) <->
  exists props, jwks = JObject props /\ own_property props "keys" = Some (JArray keys).
Proof.
  split.
  - destruct jwks; simpl; try discriminate.
    destruct (own_property props "keys") as [v|] eqn:E; [|discriminate].
    intros Hr. inversion Hr; subst. eauto.
  - intros (props & -> & Hp). simpl. now rewrite Hp.
Qed.

(** X1.  Whatever goes wrong in [refreshCache], what it throws is a
    [ClientError]: the one the transport rejected with, or one with code
    [JWKS_FETCH_ERROR], [JWKS_PARSE_ERROR] or [JWKS_INVALID].  No error
    of the runtime escapes it. *)
Theorem refreshCache_throws_ClientError (s s' : St) (e : JsError) :
  refreshCache s = (Throw e, s') ->
  instanceof_ClientError e = true /\
  (http (issued s) = Rejected e \/
   error_code e = Some "JWKS_FETCH_ERROR" \/
   error_code e = Some "JWKS_PARSE_ERROR" \/
   error_code e = Some "JWKS_INVALID").
Proof.
  rewrite refreshCache_split, refreshCache_begin_eq, refreshCache_resume_eq.
  simpl.
  destruct (http (issued s)) as [body|cause] eqn:En.
  - destruct (JSON_parse body) as [jwks|].
    + destruct (read_keys jwks) as [[|[]|]|]; intros E; inversion E; subst;
        simpl; auto.
    + intros E; inversion E; subst; simpl; auto.
  - destruct (instanceof_ClientError cause) eqn:Ei; intros E; inversion E; subst;
      simpl; auto.
Qed.

(** X2.  [refreshCache] succeeds exactly when the answer parses to an
    object whose [keys] is an array.  Nothing is asked of the entries of
    the array: an empty one, or one that holds no key at all, is
    accepted. *)
Theorem refreshCache_succeeds_iff (s : St) :
  fst (refreshCache s) = Return tt <->
  exists body props keys,
    http (issued s) = Resolved body /\
    JSON_parse body = Some (JObject props) /\
    own_property props "keys" = Some (JArray keys).
Proof.
  rewrite refreshCache_split, refreshCache_begin_eq, refreshCache_resume_eq.
  simpl. split.
  - destruct (http (issued s)) as [body|cause] eqn:En;
      [|destruct (instanceof_ClientError cause); discriminate].
    destruct (JSON_parse body) as [jwks|] eqn:Ep; [|discriminate].
    destruct (read_keys jwks) as [[|[]|]|] eqn:Ek; try discriminate.
    intros _. apply read_keys_array in Ek. destruct Ek as (props & -> & Hp).
    eauto 6.
  - intros (body & props & keys & -> & -> & Hp). simpl. now rewrite Hp.
Qed.

(** The continuation of [refreshCache] neither reads nor writes the
    marker. *)
Lemma refreshCache_resume_marker (n : nat) (f : option nat) (s : St) :
  refreshCache_resume n (set_fetching f s) =
  (fst (refreshCache_resume n s), set_fetching f (snd (refreshCache_resume n s))).
Proof.
  rewrite !refreshCache_resume_eq.
  destruct (http n) as [body|cause];
    [destruct (JSON_parse body) as [jwks|];
       [destruct (read_keys jwks) as [[|[]|]|]|]
    |destruct (instanceof_ClientError cause)];
    reflexivity.
Qed.

Lemma ensureJWKS_idle_eq (s : St) :
  fetching s = None -> ensureJWKS s = refreshCache s.
Proof.
  intros Hf.
  rewrite ensureJWKS_eq, Hf, refreshCache_split. cbv zeta.
  rewrite refreshCache_resume_marker.
  destruct (refreshCache_resume_frame JSON_parse http cfg (issued s)
              (snd (refreshCache_begin s))) as (_ & _ & _ & _ & Hm & _).
  rewrite refreshCache_begin_eq in *.
  destruct (refreshCache_resume _ _) as [r s1]. simpl in *.
  rewrite Hf in Hm. rewrite <- Hm at 1.
  f_equal. unfold set_fetching. simpl. now destruct s1.
Qed.

(** X3.  With no fetch in flight, [ensureJWKS] is [refreshCache]: the
    same outcome, the same calls to the transport, the cache and the
    logger, and the marker is clear again when it ends. *)
Theorem ensureJWKS_idle (s : St) :
  fetching s = None ->
  ensureJWKS s = refreshCache s /\ fetching (snd (ensureJWKS s)) = None.
Proof.
  intros Hf. split; [now apply ensureJWKS_idle_eq|].
  now destruct (ensureJWKS_frame JSON_parse http cfg s) as (_ & _ & _ & _ & Hm & _).
Qed.

(** What [refreshCache] answers depends on the state only through the
    number of the request. *)
Lemma refreshCache_outcome_issued (s1 s2 : St) :
  issued s1 = issued s2 -> fst (refreshCache s1) = fst (refreshCache s2).
Proof.
  intros E.
  rewrite !refreshCache_split, !refreshCache_begin_eq, !refreshCache_resume_eq.
  simpl. rewrite E.
  destruct (http (issued s2)) as [body|cause];
    [destruct (JSON_parse body) as [jwks|];
       [destruct (read_keys jwks) as [[|[]|]|]|]
    |destruct (instanceof_ClientError cause)];
    reflexivity.
Qed.

(** The state a successful [refreshCache] ends in. *)
Lemma refreshCache_success_eq (s : St) (body : string)
    (props : list (string * JsValue)) (keys : list JsValue) :
  http (issued s) = Resolved body ->
  JSON_parse body = Some (JObject props) ->
  own_property props "keys" = Some (JArray keys) ->
  refreshCache s =
  (Return tt, JwksClient.refreshed cfg keys (snd (refreshCache_begin s))).
Proof.
  intros Hn Hp Hk.
  rewrite refreshCache_split, refreshCache_begin_eq, refreshCache_resume_eq.
  simpl. rewrite Hn, Hp. simpl. now rewrite Hk.
Qed.
End RefreshCacheMore.

(** ** More on [JwksClient.getKey] *)

Section GetKeyMore.
Context {C : Type} `{ICache (list JsValue) C}.
Variable JSON_parse : string -> option JsValue.
Variable http : nat -> HttpOutcome.
Variable cfg : JwksClient.Config.

Local Abbreviation St := (Client (list JsValue) C).
Local Abbreviation refreshCache := (JwksClient.refreshCache JSON_parse http cfg).
Local Abbreviation refreshCache_resume := (JwksClient.refreshCache_resume JSON_parse http cfg).
Local Abbreviation ensureJWKS := (JwksClient.ensureJWKS JSON_parse http cfg).
Local Abbreviation getKey := (JwksClient.getKey JSON_parse http cfg).
Local Abbreviation getKey_load := (JwksClient.getKey_load JSON_parse http cfg).
Local Abbreviation getKey_find := (JwksClient.getKey_find JSON_parse http cfg).
Local Abbreviation ttl := (JwksClient.cacheTtl cfg).
Local Abbreviation uri := (JwksClient.jwksUri cfg).

(** Every cache write of a log is under the client's key, with the
    configured time to live. *)
Local Abbreviation own_writes delta :=
  (Forall (fun ev : Event (list JsValue) =>
             is_CacheSet ev = true ->
             exists keys, ev = CacheSet JwksClient.cacheKey keys ttl) delta).

Ltac own_writes_tac :=
  rewrite ?Forall_app;
  repeat match goal with
         | |- _ /\ _ => split
         | |- Forall _ [] => constructor
         | |- Forall _ (_ :: _) => constructor
         | |- Forall _ (_ ++ _) => apply Forall_app
         | |- Forall _ _ => assumption
         | |- is_CacheSet _ = true -> _ =>
             simpl; intros; try discriminate; eauto
         | |- _ => progress cbv beta
         end.

Lemma refreshCache_resume_account (n : nat) (s : St) :
  exists delta,
    trace (snd (refreshCache_resume n s)) = (trace s ++ delta)%list /\
    fetches delta = 0%nat /\
    cache_reads delta = 0%nat /\
    (cache_writes delta <= 1)%nat /\
    own_writes delta /\
    fetching (snd (refreshCache_resume n s)) = fetching s.
Proof.
  rewrite refreshCache_resume_eq.
  destruct (http n) as [body|e];
    [destruct (JSON_parse body) as [jwks|];
       [destruct (read_keys jwks) as [[|[]|]|]|]
    |destruct (instanceof_ClientError e)];
    simpl;
    first [ eexists; split; [reflexivity|]
          | exists []; split; [now rewrite app_nil_r|] ];
    unfold fetches, cache_reads, cache_writes; simpl;
    repeat split; try lia; own_writes_tac.
Qed.

Lemma ensureJWKS_account (s : St) :
  exists delta,
    trace (snd (ensureJWKS s)) = (trace s ++ delta)%list /\
    fetches delta = match fetching s with Some _ => 0 | None => 1 end%nat /\
    cache_reads delta = 0%nat /\
    (cache_writes delta <= 1)%nat /\
    own_writes delta /\
    fetching (snd (ensureJWKS s)) = None.
Proof.
  rewrite ensureJWKS_eq.
  destruct (fetching s) as [n|] eqn:Ef.
  - destruct (refreshCache_resume_account n s) as (d & Ht & Hf & Hr & Hw & Ho & _).
    exists d. simpl. repeat split; assumption.
  - rewrite refreshCache_begin_eq. simpl.
    match goal with |- context [refreshCache_resume ?n ?s1] =>
      destruct (refreshCache_resume_account n s1) as (d & Ht & Hf & Hr & Hw & Ho & _)
    end.
    simpl in *.
    exists ([Logged Debug "Fetching JWKS from URI" (CtxText "jwksUri" uri);
             HttpGet uri] ++ d)%list.
    rewrite Ht, <- app_assoc, fetches_app, cache_reads_app, cache_writes_app, Hf, Hr.
    repeat split; try assumption; try (unfold cache_writes; simpl; lia).
    own_writes_tac.
Qed.

(** Names the run of [ensureJWKS] in the goal and its account. *)
Ltac account_ensureJWKS :=
  match goal with
  | |- context [JwksClient.ensureJWKS ?p ?h ?c ?st] =>
      let d := fresh "d" in
      let r := fresh "r" in
      let s2 := fresh "s" in
      destruct (ensureJWKS_account st) as (d & ?Ht & ?Hf & ?Hr & ?Hw & ?Ho & ?Hm);
      destruct (JwksClient.ensureJWKS p h c st) as [r s2];
      simpl in *
  end.

Ltac read_account :=
  eexists; split;
  [ simpl; repeat match goal with Ht : trace _ = _ |- _ => rewrite Ht; clear Ht end;
    rewrite <- ?app_assoc; reflexivity
  | rewrite ?fetches_app, ?cache_reads_app, ?cache_writes_app ].

Ltac count :=
  repeat match goal with
         | Hf : fetches _ = _ |- _ => rewrite Hf in *; clear Hf
         | Hr : cache_reads _ = _ |- _ => rewrite Hr in *; clear Hr
         end;
  unfold fetches, cache_reads, cache_writes in *; simpl in *.

Ltac finish_account :=
  split; [lia|]; split; [own_writes_tac|];
  let E := fresh "E" in
  intros E; rewrite ?E in *; repeat split; try assumption; try congruence; lia.

Lemma getKey_load_account (s : St) :
  exists delta,
    trace (snd (getKey_load s)) = (trace s ++ delta)%list /\
    (1 <= cache_reads delta <= 2)%nat /\
    own_writes delta /\
    (fetching s = None ->
     fetching (snd (getKey_load s)) = None /\
     (fetches delta <= 1)%nat /\
     (cache_writes delta <= fetches delta)%nat).
Proof.
  unfold JwksClient.getKey_load. run_monad. simpl.
  destruct (cache_get JwksClient.cacheKey (cache s)) as [[jwks|] c1]; simpl.
  - read_account. count. finish_account.
  - account_ensureJWKS.
    destruct r as [[]|e]; simpl.
    + destruct (cache_get JwksClient.cacheKey (cache s0)) as [[jwks|] c2]; simpl;
        (read_account; count; finish_account).
    + read_account. count. finish_account.
Qed.

Lemma getKey_find_account (jwks : list JsValue) (kid : string) (s : St) :
  exists delta,
    trace (snd (getKey_find jwks kid s)) = (trace s ++ delta)%list /\
    (cache_reads delta <= 1)%nat /\
    own_writes delta /\
    (fetching s = None ->
     fetching (snd (getKey_find jwks kid s)) = None /\
     (fetches delta <= 1)%nat /\
     (cache_writes delta <= fetches delta)%nat).
Proof.
  unfold JwksClient.getKey_find. run_monad. simpl.
  destruct (JwksClient.Array_find _ jwks) as [[k|]|e]; simpl.
  - exists []. rewrite app_nil_r. split; [reflexivity|]. count. finish_account.
  - account_ensureJWKS.
    destruct r as [[]|e]; simpl.
    + destruct (cache_get JwksClient.cacheKey (cache s0)) as [jwks' c2]; simpl.
      destruct (JwksClient.findKey jwks' kid) as [[k|]|e]; simpl;
        (read_account; count; finish_account).
    + read_account. count. finish_account.
  - exists []. rewrite app_nil_r. split; [reflexivity|]. count. finish_account.
Qed.
Lemma getKey_account (kid : string) (s : St) :
  kid <> "" ->
  exists delta,
    trace (snd (getKey kid s)) = (trace s ++ delta)%list /\
    (1 <= cache_reads delta <= 3)%nat /\
    own_writes delta /\
    (fetching s = None ->
     fetching (snd (getKey kid s)) = None /\
     (cache_writes delta <= fetches delta)%nat).
Proof.
  intros Hkid. unfold JwksClient.getKey.
  apply String.eqb_neq in Hkid. rewrite Hkid.
  unfold mbind, M_bind, bind.
  destruct (getKey_load_account s) as (d1 & Ht1 & Hr1 & Ho1 & Hi1).
  destruct (getKey_load s) as [[jwks|e] s1]; simpl in *.
  - destruct (getKey_find_account jwks kid s1) as (d2 & Ht2 & Hr2 & Ho2 & Hi2).
    exists (d1 ++ d2)%list.
    rewrite Ht2, Ht1, <- app_assoc, cache_reads_app, fetches_app, cache_writes_app.
    split; [reflexivity|]. split; [lia|]. split; [now apply Forall_app|].
    intros Hf. destruct (Hi1 Hf) as (Hm1 & _ & Hw1).
    destruct (Hi2 Hm1) as (Hm2 & _ & Hw2). split; [assumption|lia].
  - exists d1. split; [assumption|]. split; [lia|]. split; [assumption|].
    intros Hf. destruct (Hi1 Hf) as (Hm1 & _ & Hw1). now split.
Qed.

(** X4.  A call of [getKey] that starts with no fetch in flight ends
    with none in flight, whether it returns a key or fails: the marker
    is never left set. *)
Theorem getKey_ends_idle (kid : string) (s : St) :
  fetching s = None -> fetching (snd (getKey kid s)) = None.
Proof.
  intros Hf. destruct (String.eqb kid "") eqn:Ek.
  - unfold JwksClient.getKey. now rewrite Ek.
  - apply String.eqb_neq in Ek.
    destruct (getKey_account kid s Ek) as (d & _ & _ & _ & Hi).
    now destruct (Hi Hf).
Qed.

(** X5.  [getKey] writes the cache only with what it has just fetched:
    started with no fetch in flight, it makes no more cache writes than
    requests, and every write is under the key [jwks] with the
    configured time to live. *)
Theorem getKey_writes_what_it_fetched (kid : string) (s : St) :
  fetching s = None ->
  exists delta,
    trace (snd (getKey kid s)) = (trace s ++ delta)%list /\
    (cache_writes delta <= fetches delta)%nat /\
    Forall (fun ev => is_CacheSet ev = true ->
                      exists keys, ev = CacheSet JwksClient.cacheKey keys ttl) delta.
Proof.
  intros Hf. destruct (String.eqb kid "") eqn:Ek.
  - exists []. unfold JwksClient.getKey. rewrite Ek. simpl.
    rewrite app_nil_r. split; [reflexivity|]. split; [reflexivity|constructor].
  - apply String.eqb_neq in Ek.
    destruct (getKey_account kid s Ek) as (d & Ht & _ & Ho & Hi).
    exists d. destruct (Hi Hf) as [_ Hw]. now repeat split.
Qed.

(** X6.  [getKey] validates the kid before anything else: with an empty
    kid it fails with [INVALID_KID] and calls no collaborator; with any
    other kid it looks into the cache at least once and at most three
    times. *)
Theorem getKey_lookups (kid : string) (s : St) :
  (kid = "" ->
   getKey kid s = (Throw (ClientError "kid must be provided" "INVALID_KID" None), s)) /\
  (kid <> "" ->
   exists delta,
     trace (snd (getKey kid s)) = (trace s ++ delta)%list /\
     (1 <= cache_reads delta <= 3)%nat).
Proof.
  split.
  - intros ->. reflexivity.
  - intros Hkid. destruct (getKey_account kid s Hkid) as (d & Ht & Hr & _).
    exists d. now split.
Qed.

(** What [find] returns satisfies the predicate and is an element. *)
Lemma Array_find_some (predicate : JsValue -> Outcome bool)
    (l : list JsValue) (k : JsValue) :
  JwksClient.Array_find predicate l = Return (Some k) ->
  predicate k = Return true /\ In k l.
Proof.
  induction l as [|x rest IH]; simpl; [discriminate|].
  destruct (predicate x) as [[|]|e] eqn:Ex; [| |discriminate].
  - intros E. inversion E; subst. auto.
  - intros E. destruct (IH E). auto.
Qed.

(** The predicate of [findKey] holds exactly on an object whose member
    [kid], the last of that name, is the wanted string. *)
Lemma kid_is_true (kid : string) (k : JsValue) :
  JwksClient.kid_is kid k = Return true <->
  exists props, k = JObject props /\ own_property props "kid" = Some (JString kid).
Proof.
  unfold JwksClient.kid_is. split.
  - destruct k; simpl; try discriminate.
    destruct (own_property props "kid") as [[]|] eqn:Ep; simpl; try discriminate.
    intros E. assert (String.eqb s kid = true) as Es by congruence.
    apply String.eqb_eq in Es. subst. eauto.
  - intros (props & -> & Hp). simpl. rewrite Hp. simpl.
    now rewrite String.eqb_refl.
Qed.

(** A key returned by [getKey] was found by [findKey] in some key set. *)
Lemma getKey_returns_found (kid : string) (s s' : St) (k : JsValue) :
  getKey kid s = (Return k, s') ->
  exists jwks, JwksClient.Array_find (JwksClient.kid_is kid) jwks = Return (Some k).
Proof.
  unfold JwksClient.getKey.
  destruct (String.eqb kid ""); [discriminate|].
  unfold mbind, M_bind, bind.
  destruct (getKey_load s) as [[jwks|e] s1]; [|discriminate].
  unfold JwksClient.getKey_find. run_monad. simpl.
  destruct (JwksClient.Array_find _ jwks) as [[k0|]|e] eqn:Ef; simpl;
    [intros E; inversion E; subst; eauto | | discriminate].
  match goal with |- context [JwksClient.ensureJWKS ?p ?h ?c ?st] =>
    destruct (JwksClient.ensureJWKS p h c st) as [[[]|e] s2]
  end; simpl; [|discriminate].
  destruct (cache_get JwksClient.cacheKey (cache s2)) as [[jwks'|] c2]; simpl;
    [|discriminate].
  destruct (JwksClient.Array_find _ jwks') as [[k0|]|e] eqn:Ef'; simpl;
    [intros E; inversion E; subst; eauto | discriminate | discriminate].
Qed.

(** X7.  [getKey] never returns a key other than the one asked for:
    what it returns is an object whose [kid] is the string it was
    called with. *)
Theorem getKey_returns_requested_kid (kid : string) (s s' : St) (k : JsValue) :
  getKey kid s = (Return k, s') ->
  exists props, k = JObject props /\ own_property props "kid" = Some (JString kid).
Proof.
  intros E. destruct (getKey_returns_found kid s s' k E) as (jwks & Hf).
  apply kid_is_true. now apply (Array_find_some _ jwks).
Qed.

(** [find] stops with the exception of the predicate on the first
    element that raises one. *)
Lemma Array_find_throws (predicate : JsValue -> Outcome bool)
    (pre post : list JsValue) (k : JsValue) (e : JsError) :
  Forall (fun x => predicate x = Return false) pre ->
  predicate k = Throw e ->
  JwksClient.Array_find predicate (pre ++ k :: post) = Throw e.
Proof.
  intros Hpre Hk. induction Hpre as [|x pre Hx _ IH]; simpl.
  - now rewrite Hk.
  - now rewrite Hx.
Qed.

(** X8.  A [null] among the cached entries, before any entry with the
    wanted kid, makes [getKey] fail with the [TypeError] of reading
    [kid] of [null]: no [ClientError], no refresh. *)
Theorem getKey_null_entry (kid : string) (s : St) (c1 : C)
    (pre post : list JsValue) :
  kid <> "" ->
  cache_get JwksClient.cacheKey (cache s) = (Some (pre ++ JNull :: post)%list, c1) ->
  Forall (fun x => JwksClient.kid_is kid x = Return false) pre ->
  fst (getKey kid s) =
    Throw (NativeError "TypeError" "Cannot read properties of null (reading 'kid')") /\
  fetches (trace (snd (getKey kid s))) = fetches (trace s).
Proof.
  intros Hkid Hc Hpre.
  unfold JwksClient.getKey.
  apply String.eqb_neq in Hkid. rewrite Hkid.
  unfold JwksClient.getKey_load, JwksClient.getKey_find, JwksClient.findKey.
  run_monad. simpl. rewrite Hc. simpl.
  rewrite (Array_find_throws _ pre post JNull _ Hpre eq_refl). simpl.
  split; [reflexivity|].
  rewrite !fetches_app. unfold fetches. simpl. lia.
Qed.

(** X9.  The lookup after the second refresh is not guarded as the one
    after the first is: when the cached set lacks the kid, the refresh
    succeeds and the cache then returns nothing, [getKey] fails with
    the [TypeError] of calling [find] on [undefined]. *)
Theorem getKey_undefined_after_refresh (kid : string) (old : list JsValue)
    (s s1 s2 s3 : St) :
  kid <> "" ->
  cache_lookup JwksClient.cacheKey s = (Return (Some old), s1) ->
  JwksClient.Array_find (JwksClient.kid_is kid) old = Return None ->
  ensureJWKS
    (appended s1
       [Logged Debug ("Cache hit for key: " +:+ JwksClient.cacheKey) NoContext;
        Logged Warn ("Key with kid " +:+ kid +:+ " not found. Refreshing JWKS.")
          NoContext]) = (Return tt, s2) ->
  cache_lookup JwksClient.cacheKey s2 = (Return None, s3) ->
  getKey kid s =
    (Throw (NativeError "TypeError"
              "Cannot read properties of undefined (reading 'find')"), s3).
Proof.
  intros Hkid H1 Hold H2 H3.
  unfold JwksClient.getKey.
  apply String.eqb_neq in Hkid. rewrite Hkid.
  unfold JwksClient.getKey_load, JwksClient.getKey_find.
  unfold mbind, M_bind, bind. rewrite H1.
  unfold logger, emit, mret, M_ret, ret, lift_outcome. simpl. rewrite Hold.
  unfold appended in H2. simpl in H2.
  cbn [cache fetching issued trace]. rewrite <- app_assoc. simpl app.
  rewrite H2, H3. reflexivity.
Qed.

(** What the cache gave at entry does not hold the kid: nothing, or a
    set that [findKey] scans to its end without a match. *)
Local Abbreviation lacks kid cached :=
  (match cached with
   | None => True
   | Some old => JwksClient.Array_find (JwksClient.kid_is kid) old = Return None
   end).

(** Rewrites the run of [ensureJWKS] in the goal, from a state with no
    fetch in flight, into the run of [refreshCache]. *)
Ltac ensureJWKS_to_refreshCache Hf :=
  match goal with
  | |- context [JwksClient.ensureJWKS ?p ?h ?c ?st] =>
      rewrite (ensureJWKS_idle_eq p h c st) by exact Hf
  end.

(** X10.  No retry and no stale answer: when the cache at entry does
    not hold the kid and the refresh fails with [e], [getKey] fails with
    that same [e], after exactly one request and without any cache
    write. *)
Theorem getKey_refresh_failure (kid : string) (s : St) (e : JsError)
    (cached : option (list JsValue)) (c1 : C) :
  kid <> "" ->
  fetching s = None ->
  cache_get JwksClient.cacheKey (cache s) = (cached, c1) ->
  lacks kid cached ->
  fst (refreshCache s) = Throw e ->
  fst (getKey kid s) = Throw e /\
  exists delta,
    trace (snd (getKey kid s)) = (trace s ++ delta)%list /\
    fetches delta = 1%nat /\
    cache_writes delta = 0%nat.
Proof.
  intros Hkid Hf Hc Hlacks Hfail.
  unfold JwksClient.getKey.
  apply String.eqb_neq in Hkid. rewrite Hkid.
  unfold JwksClient.getKey_load, JwksClient.getKey_find, JwksClient.findKey.
  run_monad. simpl. rewrite Hc.
  destruct cached as [old|]; simpl.
  - rewrite Hlacks. simpl.
    ensureJWKS_to_refreshCache Hf.
    match goal with |- context [JwksClient.refreshCache ?p ?h ?c ?st] =>
      destruct (refreshCache_frame p h c st) as (d & Ht & Hn & _ & _ & _ & Hc');
      rewrite (refreshCache_outcome_issued p h c st s eq_refl), Hfail in Hc';
      pose proof (refreshCache_outcome_issued p h c st s eq_refl) as Hr;
      rewrite Hfail in Hr;
      destruct (JwksClient.refreshCache p h c st) as [r s2]
    end.
    simpl in *. subst r. split; [reflexivity|].
    destruct (Hc' e eq_refl) as [_ Hw].
    read_account. rewrite Hn, Hw. unfold fetches, cache_writes. simpl. lia.
  - ensureJWKS_to_refreshCache Hf.
    match goal with |- context [JwksClient.refreshCache ?p ?h ?c ?st] =>
      destruct (refreshCache_frame p h c st) as (d & Ht & Hn & _ & _ & _ & Hc');
      rewrite (refreshCache_outcome_issued p h c st s eq_refl), Hfail in Hc';
      pose proof (refreshCache_outcome_issued p h c st s eq_refl) as Hr;
      rewrite Hfail in Hr;
      destruct (JwksClient.refreshCache p h c st) as [r s2]
    end.
    simpl in *. subst r. split; [reflexivity|].
    destruct (Hc' e eq_refl) as [_ Hw].
    read_account. rewrite Hn, Hw. unfold fetches, cache_writes. simpl. lia.
Qed.

(** X11.  Key rotation is absorbed by one fetch.  Over a cache that
    gives back what was just stored under the key, when the cache at
    entry does not hold the kid and the provider answers with a key set
    that does, [getKey] returns the first entry of that answer with the
    kid, after exactly one request, and leaves no fetch in flight. *)
Theorem getKey_recovers_by_one_fetch (kid : string) (s : St)
    (cached : option (list JsValue)) (c1 : C)
    (body : string) (props : list (string * JsValue))
    (keys : list JsValue) (k : JsValue) :
  (forall v c, fst (cache_get JwksClient.cacheKey
                      (cache_set JwksClient.cacheKey v ttl c)) = Some v) ->
  kid <> "" ->
  fetching s = None ->
  cache_get JwksClient.cacheKey (cache s) = (cached, c1) ->
  lacks kid cached ->
  http (issued s) = Resolved body ->
  JSON_parse body = Some (JObject props) ->
  own_property props "keys" = Some (JArray keys) ->
  JwksClient.Array_find (JwksClient.kid_is kid) keys = Return (Some k) ->
  fst (getKey kid s) = Return k /\
  fetches (trace (snd (getKey kid s))) = S (fetches (trace s)) /\
  fetching (snd (getKey kid s)) = None.
Proof.
  intros Hlaw Hkid Hf Hc Hlacks Hn Hp Hk Hfound.
  unfold JwksClient.getKey.
  apply String.eqb_neq in Hkid. rewrite Hkid.
  unfold JwksClient.getKey_load, JwksClient.getKey_find, JwksClient.findKey.
  run_monad. simpl. rewrite Hc.
  destruct cached as [old|]; simpl.
  - rewrite Hlacks. simpl.
    ensureJWKS_to_refreshCache Hf.
    match goal with |- context [JwksClient.refreshCache ?p ?h ?c ?st] =>
      rewrite (refreshCache_success_eq p h c st body props keys Hn Hp Hk)
    end.
    rewrite refreshCache_begin_eq. simpl.
    match goal with |- context [cache_get _ (cache_set _ ?v _ ?c)] =>
      pose proof (Hlaw v c) as Hg;
      destruct (cache_get JwksClient.cacheKey (cache_set JwksClient.cacheKey v ttl c))
        as [got c3]
    end.
    simpl in Hg. subst got. simpl. rewrite Hfound. simpl.
    repeat split; [|assumption].
    rewrite !fetches_app. unfold fetches. simpl. lia.
  - ensureJWKS_to_refreshCache Hf.
    match goal with |- context [JwksClient.refreshCache ?p ?h ?c ?st] =>
      rewrite (refreshCache_success_eq p h c st body props keys Hn Hp Hk)
    end.
    rewrite refreshCache_begin_eq. simpl.
    match goal with |- context [cache_get _ (cache_set _ ?v _ ?c)] =>
      pose proof (Hlaw v c) as Hg;
      destruct (cache_get JwksClient.cacheKey (cache_set JwksClient.cacheKey v ttl c))
        as [got c3]
    end.
    simpl in Hg. subst got. simpl. rewrite Hfound. simpl.
    repeat split; [|assumption].
    rewrite !fetches_app. unfold fetches. simpl. lia.
Qed.
End GetKeyMore.

(** ** The constructor of [JwksClient] *)

Section Constructor.
Context {C : Type} `{ICache (list JsValue) C}.
Variable JSON_parse : string -> option JsValue.
Variable http : nat -> HttpOutcome.

Local Abbreviation St := (Client (list JsValue) C).

Lemma fetches_none (delta : list (Event (list JsValue))) :
  fetches delta = 0%nat -> List.filter is_HttpGet delta = [].
Proof. unfold fetches. now destruct (List.filter is_HttpGet delta). Qed.

(** X12.  The constructor refuses the empty URI with
    [INVALID_JWKS_URI] and nothing else; a client it has built never
    asks the transport for anything but the URI it was given, once per
    [refreshCache]. *)
Theorem new_client_fetches_its_uri (uri : string) (timeToLive : Z) :
  (uri = "" ->
   JwksClient.new uri timeToLive =
     Throw (ClientError "Invalid JWKS URI provided" "INVALID_JWKS_URI" None)) /\
  (uri <> "" ->
   exists cfg,
     JwksClient.new uri timeToLive = Return cfg /\
     forall s : St,
     exists delta,
       trace (snd (JwksClient.refreshCache JSON_parse http cfg s)) =
         (trace s ++ delta)%list /\
       List.filter is_HttpGet delta = [HttpGet uri]).
Proof.
  split.
  - intros ->. reflexivity.
  - intros Huri. apply String.eqb_neq in Huri.
    unfold JwksClient.new, JwksClient.validateJwksUri. rewrite Huri.
    eexists. split; [reflexivity|]. intros s.
    rewrite refreshCache_split, refreshCache_begin_eq. simpl.
    match goal with |- context [JwksClient.refreshCache_resume ?p ?h ?c ?n ?s1] =>
      destruct (refreshCache_resume_frame p h c n s1) as (d & Ht & Hf & _)
    end.
    simpl in *.
    exists ([Logged Debug "Fetching JWKS from URI" (CtxText "jwksUri" uri);
             HttpGet uri] ++ d)%list.
    rewrite Ht, <- app_assoc. split; [reflexivity|].
    rewrite List.filter_app, (fetches_none d Hf). reflexivity.
Qed.
End Constructor.

(** ** More on the single-flight marker *)

Section SingleFlightMore.
Context {C : Type} `{ICache (list JsValue) C}.
Variable JSON_parse : string -> option JsValue.
Variable http : nat -> HttpOutcome.
Variable cfg : JwksClient.Config.

Local Abbreviation Loop := (EventLoop.Loop C).
Local Abbreviation step := (EventLoop.step JSON_parse http cfg).
Local Abbreviation run := (EventLoop.run JSON_parse http cfg).
Local Abbreviation call := (EventLoop.call cfg).

(** Callers that find the marker set are all handed the operation it
    names, and nothing else changes. *)
Lemma calls_join (callers : list nat) (n : nat) (st : Loop) :
  fetching (EventLoop.client st) = Some n ->
  exists st',
    run (map EventLoop.Call callers) st = Some st' /\
    EventLoop.client st' = EventLoop.client st /\
    EventLoop.running st' = EventLoop.running st /\
    EventLoop.awaiting st' =
      (EventLoop.awaiting st ++ map (fun caller => (caller, n)) callers)%list.
Proof.
  revert st. induction callers as [|caller callers IH]; intros st Hm; simpl.
  - exists st. now rewrite app_nil_r.
  - destruct (IH (call caller st)) as (st' & Hrun & Hcl & Hr & Ha).
    + unfold EventLoop.call. now rewrite Hm.
    + exists st'. split; [exact Hrun|].
      unfold EventLoop.call in Hcl, Hr, Ha. rewrite Hm in Hcl, Hr, Ha.
      simpl in *. rewrite <- app_assoc in Ha. now repeat split.
Qed.

(** X13.  However many callers run [ensureJWKS] before the first fetch
    settles, one request is made: the first caller starts operation 0,
    and every caller is handed that same operation. *)
Theorem concurrent_callers_share_one_fetch (c : C) (first : nat) (others : list nat) :
  exists st,
    run (map EventLoop.Call (first :: others)) (EventLoop.initial c) = Some st /\
    fetches (trace (EventLoop.client st)) = 1%nat /\
    issued (EventLoop.client st) = 1%nat /\
    EventLoop.running st = [0%nat] /\
    EventLoop.awaiting st = map (fun caller => (caller, 0%nat)) (first :: others).
Proof.
  simpl.
  destruct (calls_join others 0 (call first (EventLoop.initial c)))
    as (st & Hrun & Hcl & Hr & Ha).
  - reflexivity.
  - exists st. split; [exact Hrun|].
    rewrite Hcl, Hr, Ha. now repeat split.
Qed.

(** The requests made so far are those logged, and they are as many as
    the cycles completed, plus the one in progress if the marker is
    set. *)
Local Abbreviation accounted k st :=
  (fetches (trace (EventLoop.client st)) = issued (EventLoop.client st) /\
   issued (EventLoop.client st) =
     Nat.add k (match fetching (EventLoop.client st) with
                | Some _ => 1%nat
                | None => 0%nat
                end)).

Lemma step_accounted (l : EventLoop.Label) (k : nat) (st st' : Loop) :
  EventLoop.coherent st ->
  accounted k st ->
  step l st = Some st' ->
  accounted (k + finished_cycles [l])%nat st'.
Proof.
  intros Hco [Hf Hi] Hstep.
  destruct l as [caller|n|n|caller]; unfold finished_cycles; simpl in *.
  - inversion Hstep; subst; clear Hstep.
    unfold EventLoop.call.
    destruct (fetching (EventLoop.client st)) as [n|] eqn:Hm; simpl.
    + rewrite Hm. split; [assumption|lia].
    + rewrite !fetches_app, Hf. unfold fetches. simpl. split; lia.
  - destruct (EventLoop.mem_nat n (EventLoop.running st)); [|discriminate].
    inversion Hstep; subst; clear Hstep.
    unfold EventLoop.settle.
    destruct (refreshCache_resume_frame JSON_parse http cfg n (EventLoop.client st))
      as (d & Ht & Hd & _ & Hm & His & _).
    destruct (JwksClient.refreshCache_resume JSON_parse http cfg n (EventLoop.client st))
      as [r cl].
    simpl in *. rewrite Ht, fetches_app, Hd, Hm, His. split; lia.
  - destruct (EventLoop.mem_nat n (EventLoop.cleanup st)) eqn:Hmem; [|discriminate].
    inversion Hstep; subst; clear Hstep.
    destruct Hco as [(_ & Hc & _)|[(m & _ & Hc & _)|(m & _ & _ & Hm)]];
      try (rewrite Hc in Hmem; discriminate).
    rewrite Hm in Hi. simpl. split; lia.
  - inversion Hstep; subst; clear Hstep.
    unfold EventLoop.lookup, cache_lookup. simpl.
    destruct (cache_get JwksClient.cacheKey (cache (EventLoop.client st))) as [v c1].
    simpl. rewrite fetches_app, Hf. unfold fetches. simpl. split; lia.
Qed.

Lemma run_accounted (ls : list EventLoop.Label) (k : nat) (st st' : Loop) :
  EventLoop.coherent st ->
  accounted k st ->
  run ls st = Some st' ->
  accounted (k + finished_cycles ls)%nat st'.
Proof.
  revert k st. induction ls as [|l ls IH]; simpl; intros k st Hco Hacc Hrun.
  - inversion Hrun; subst. unfold finished_cycles. simpl.
    now rewrite Nat.add_0_r.
  - destruct (step l st) as [st1|] eqn:Hstep; [|discriminate].
    pose proof (step_accounted l k st st1 Hco Hacc Hstep) as Hacc1.
    pose proof (step_coherent JSON_parse http cfg l st st1 Hco Hstep) as Hco1.
    pose proof (IH _ st1 Hco1 Hacc1 Hrun) as Hacc'.
    replace (k + finished_cycles (l :: ls))%nat
      with (k + finished_cycles [l] + finished_cycles ls)%nat; [exact Hacc'|].
    unfold finished_cycles. simpl.
    destruct l; simpl; lia.
Qed.

(** X14.  No retry storm, whatever the schedule: in every state the
    loop can reach from a fresh client, the number of requests made is
    the number of fetch cycles completed, plus one when a fetch is in
    progress.  A new request is made only after the cycle before it has
    run its [finally] callback. *)
Theorem requests_follow_cycles (c : C) (ls : list EventLoop.Label) (st : Loop) :
  run ls (EventLoop.initial c) = Some st ->
  fetches (trace (EventLoop.client st)) = issued (EventLoop.client st) /\
  issued (EventLoop.client st) =
    (finished_cycles ls +
     match fetching (EventLoop.client st) with Some _ => 1 | None => 0 end)%nat.
Proof.
  intros Hrun.
  apply (run_accounted ls 0 (EventLoop.initial c) st (initial_coherent c));
    [|exact Hrun].
  split; reflexivity.
Qed.
End SingleFlightMore.

(** ** [UserInfoClient.getUserInfo] *)

Section UserInfo.
Variable getAccessToken : Outcome (option string).
Variable userinfo_endpoint : string.
Variable httpClient_get : string -> string -> HttpOutcome.
Variable JSON_parse : string -> option JsValue.

Local Abbreviation getUserInfo :=
  (UserInfoClient.getUserInfo getAccessToken userinfo_endpoint httpClient_get JSON_parse).
Local Abbreviation bearer token := (JSON.stringify (UserInfoClient.headers token)).

(** What [getUserInfo] does once it holds a token, case by case. *)
Lemma getUserInfo_with_token (token : string) (s : list UserInfoClient.Call) :
  getAccessToken = Return (Some token) ->
  token <> "" ->
  getUserInfo s =
  match httpClient_get userinfo_endpoint (bearer token) with
  | Resolved body =>
      match JSON_parse body with
      | Some userInfo =>
          (Return userInfo,
           s ++ [UserInfoClient.GetAccessToken;
                 UserInfoClient.Get userinfo_endpoint (bearer token);
                 UserInfoClient.LogDebug "Fetched user info successfully" userInfo])
      | None =>
          let cause := NativeError "SyntaxError" "Unexpected token in JSON" in
          (Throw (ClientError "User info retrieval failed" "USERINFO_ERROR" (Some cause)),
           s ++ [UserInfoClient.GetAccessToken;
                 UserInfoClient.Get userinfo_endpoint (bearer token);
                 UserInfoClient.LogError "Failed to fetch user info" cause])
      end
  | Rejected cause =>
      (Throw (ClientError "User info retrieval failed" "USERINFO_ERROR" (Some cause)),
       s ++ [UserInfoClient.GetAccessToken;
             UserInfoClient.Get userinfo_endpoint (bearer token);
             UserInfoClient.LogError "Failed to fetch user info" cause])
  end%list.
Proof.
  intros Ht Hne. apply String.eqb_neq in Hne.
  unfold UserInfoClient.getUserInfo, UserInfoClient.record.
  run_monad. rewrite Ht.
  generalize (bearer token). intros hs. simpl. rewrite Hne.
  destruct (httpClient_get userinfo_endpoint hs) as [body|cause]; simpl.
  - destruct (JSON_parse body) as [userInfo|]; simpl;
      now rewrite <- !app_assoc.
  - now rewrite <- !app_assoc.
Qed.

(** X15.  Without a token there is no request: when the token manager
    yields [null] or the empty string, [getUserInfo] fails with
    [NO_ACCESS_TOKEN]; when the token manager itself fails, its error
    comes out as it is, not wrapped.  In both cases the transport and
    the logger are not called. *)
Theorem getUserInfo_without_token (s : list UserInfoClient.Call) :
  (forall t,
     getAccessToken = Return t ->
     UserInfoClient.no_token t = true ->
     getUserInfo s =
       (Throw (ClientError "No valid access token available" "NO_ACCESS_TOKEN" None),
        (s ++ [UserInfoClient.GetAccessToken])%list)) /\
  (forall e,
     getAccessToken = Throw e ->
     getUserInfo s = (Throw e, (s ++ [UserInfoClient.GetAccessToken])%list)).
Proof.
  split.
  - intros t Ht Hno.
    unfold UserInfoClient.getUserInfo, UserInfoClient.record.
    run_monad. rewrite Ht. simpl.
    destruct t as [token|]; simpl in *; [now rewrite Hno | reflexivity].
  - intros e Ht.
    unfold UserInfoClient.getUserInfo, UserInfoClient.record.
    run_monad. now rewrite Ht.
Qed.

(** X16.  With a token, [getUserInfo] makes exactly one request,
    whatever its outcome: a GET of the userinfo endpoint whose headers
    are the JSON text of the object with the one member [Authorization],
    the word Bearer and the token. *)
Theorem getUserInfo_one_bearer_request (token : string) (s : list UserInfoClient.Call) :
  getAccessToken = Return (Some token) ->
  token <> "" ->
  exists delta,
    snd (getUserInfo s) = (s ++ delta)%list /\
    List.filter UserInfoClient.is_Get delta =
      [UserInfoClient.Get userinfo_endpoint
         (JSON.stringify
            (JObject [("Authorization", JString ("Bearer " +:+ token))]))].
Proof.
  intros Ht Hne. rewrite (getUserInfo_with_token token s Ht Hne).
  change (JObject [("Authorization", JString ("Bearer " +:+ token))])
    with (UserInfoClient.headers token).
  generalize (bearer token). intros hs.
  destruct (httpClient_get userinfo_endpoint hs) as [body|cause];
    [destruct (JSON_parse body) as [userInfo|]|];
    simpl; eexists; split; reflexivity.
Qed.

(** X17.  With a token, [getUserInfo] returns the parsed body of the
    answer as it is, and every failure, of the transport or of the
    parser, comes out as a [ClientError] with code [USERINFO_ERROR]
    whose context is the original error.  A typed error of the
    transport is wrapped like any other; it is not passed through. *)
Theorem getUserInfo_wraps_every_failure (token : string) (s : list UserInfoClient.Call) :
  getAccessToken = Return (Some token) ->
  token <> "" ->
  (forall userInfo,
     fst (getUserInfo s) = Return userInfo ->
     exists body,
       httpClient_get userinfo_endpoint (bearer token) = Resolved body /\
       JSON_parse body = Some userInfo) /\
  (forall error,
     fst (getUserInfo s) = Throw error ->
     exists cause,
       error = ClientError "User info retrieval failed" "USERINFO_ERROR" (Some cause) /\
       last (snd (getUserInfo s)) =
         Some (UserInfoClient.LogError "Failed to fetch user info" cause) /\
       (httpClient_get userinfo_endpoint (bearer token) = Rejected cause \/
        exists body,
          httpClient_get userinfo_endpoint (bearer token) = Resolved body /\
          JSON_parse body = None)).
Proof.
  intros Ht Hne. rewrite (getUserInfo_with_token token s Ht Hne).
  generalize (bearer token). intros hs.
  destruct (httpClient_get userinfo_endpoint hs) as [body|cause] eqn:Eh;
    [destruct (JSON_parse body) as [userInfo|] eqn:Ep|];
    simpl; split; intros x E; inversion E; subst; eauto.
  - eexists. split; [reflexivity|]. split; [|eauto].
    now rewrite last_app.
  - eexists. split; [reflexivity|]. split; [|eauto].
    now rewrite last_app.
Qed.
End UserInfo.

(** ** More on the discovery client *)

Section DiscoveryMore.
Context {C : Type} `{ICache JsValue C}.
Variable JSON_parse : string -> option JsValue.
Variable http : nat -> HttpOutcome.
Variable cfg : DiscoveryClient.Config.

Local Abbreviation St := (Client JsValue C).
Local Abbreviation fetch_resume := (DiscoveryClient.fetch_resume JSON_parse http cfg).
Local Abbreviation getDiscoveryConfig :=
  (DiscoveryClient.getDiscoveryConfig JSON_parse http cfg).

(** A failing fetch writes nothing and throws a typed error. *)
Lemma fetch_resume_failure (n : nat) (s : St) (e : JsError) :
  fst (fetch_resume n s) = Throw e ->
  instanceof_ClientError e = true /\
  (error_code e = Some "DISCOVERY_ERROR" \/
   error_code e = Some "INVALID_DISCOVERY_CONFIG" \/
   http n = Rejected e) /\
  exists delta,
    trace (snd (fetch_resume n s)) = (trace s ++ delta)%list /\
    cache_writes delta = 0%nat.
Proof.
  unfold DiscoveryClient.fetch_resume, DiscoveryClient.validateConfig,
    DiscoveryClient.handleFetchError.
  run_monad.
  destruct (http n) as [body|cause] eqn:En; simpl.
  - destruct (JSON_parse body) as [config|] eqn:Ep; simpl.
    + destruct (DiscoveryClient.nonempty_string_field config "issuer"); simpl;
        [destruct (DiscoveryClient.nonempty_string_field config "jwks_uri"); simpl|];
        intros E; inversion E; subst; simpl;
        (split; [reflexivity|]; split; [auto|]; eexists; split; reflexivity).
    + intros E; inversion E; subst; simpl.
      split; [reflexivity|]. split; [auto|]. eexists; split; reflexivity.
  - destruct (instanceof_ClientError cause) eqn:Ei; simpl;
      intros E; inversion E; subst; simpl;
      (split; [assumption || reflexivity|]; split; [auto|]; eexists; split; reflexivity).
Qed.

(** X18.  (The discovery client, as modelled from the specification and
    its test suite.)  A call of [getDiscoveryConfig] that fails, forced
    or not, has made no cache write, and what it throws is a
    [ClientError]: [DISCOVERY_ERROR], [INVALID_DISCOVERY_CONFIG], or
    the typed error the transport rejected with. *)
Theorem getDiscoveryConfig_failure_not_cached (forceRefresh : bool) (s : St)
    (e : JsError) :
  fst (getDiscoveryConfig forceRefresh s) = Throw e ->
  instanceof_ClientError e = true /\
  exists delta,
    trace (snd (getDiscoveryConfig forceRefresh s)) = (trace s ++ delta)%list /\
    cache_writes delta = 0%nat.
Proof.
  unfold DiscoveryClient.getDiscoveryConfig, DiscoveryClient.fetchOnce,
    DiscoveryClient.fetch_begin.
  run_monad.
  destruct forceRefresh; simpl.
  - destruct (fetching s) as [n|]; simpl;
      match goal with |- context [fetch_resume ?n ?s1] =>
        pose proof (fetch_resume_failure n s1 e) as Hfail;
        destruct (fetch_resume n s1) as [r s2]
      end;
      simpl in *; intros E; subst r;
      destruct (Hfail eq_refl) as (Hi & _ & d & Ht & Hw);
      (split; [exact Hi|]);
      (eexists; split; [rewrite Ht, <- ?app_assoc; reflexivity|]);
      rewrite ?cache_writes_app, Hw; reflexivity.
  - destruct (cache_get DiscoveryClient.cacheKey (cache s)) as [[config|] c1]; simpl;
      [discriminate|].
    destruct (fetching s) as [n|]; simpl;
      match goal with |- context [fetch_resume ?n ?s1] =>
        pose proof (fetch_resume_failure n s1 e) as Hfail;
        destruct (fetch_resume n s1) as [r s2]
      end;
      simpl in *; intros E; subst r;
      destruct (Hfail eq_refl) as (Hi & _ & d & Ht & Hw);
      (split; [exact Hi|]);
      (eexists; split; [rewrite Ht, <- ?app_assoc; reflexivity|]);
      rewrite ?cache_writes_app, Hw; reflexivity.
Qed.
End DiscoveryMore.

(** ** Calls of [getKey], turn by turn *)

Section TasksAlone.
Local Open Scope list_scope.
Context {C : Type} `{ICache (list JsValue) C}.
Variable JSON_parse : string -> option JsValue.
Variable http : nat -> HttpOutcome.
Variable cfg : JwksClient.Config.

Local Abbreviation Loop := (EventLoop.Loop C).
Local Abbreviation getKey := (JwksClient.getKey JSON_parse http cfg).
Local Abbreviation refreshCache_resume := (JwksClient.refreshCache_resume JSON_parse http cfg).
Local Abbreviation step := (Tasks.step JSON_parse http cfg).
Local Abbreviation run := (Tasks.run JSON_parse http cfg).

(** The recorded results are of operations numbered below [n]. *)
Local Abbreviation older n l :=
  (Forall (fun p : nat * Outcome unit => (fst p < n)%nat) (EventLoop.results l)).

Lemma lookup_last (ts : list Tasks.Task) (t : Tasks.Task) :
  (ts ++ [t]) !! length ts = Some t.
Proof. now apply list_lookup_middle. Qed.

Lemma insert_last (ts : list Tasks.Task) (t t' : Tasks.Task) :
  <[length ts := t']> (ts ++ [t]) = ts ++ [t'].
Proof.
  rewrite insert_app_r_alt by lia. now rewrite Nat.sub_diag.
Qed.

Lemma find_result (n : nat) (r : Outcome unit) (old : list (nat * Outcome unit)) :
  Forall (fun p => (fst p < n)%nat) old ->
  List.find (fun p => Nat.eqb (fst p) n) (old ++ [(n, r)]) = Some (n, r).
Proof.
  induction 1 as [|p old Hp _ IH]; simpl.
  - now rewrite Nat.eqb_refl.
  - destruct (Nat.eqb (fst p) n) eqn:E; [|exact IH].
    apply Nat.eqb_eq in E. lia.
Qed.

(** The state of the loop once operation [n] has settled and its
    [finally] callback has run. *)
Local Abbreviation finished n l :=
  {| EventLoop.client := set_fetching None (snd (refreshCache_resume n (EventLoop.client l)));
     EventLoop.running := [];
     EventLoop.cleanup := [];
     EventLoop.awaiting := EventLoop.awaiting l;
     EventLoop.results :=
       EventLoop.results l ++ [(n%nat, fst (refreshCache_resume n (EventLoop.client l)))] |}.

Lemma cycle (n : nat) (l : Loop) (ts : list Tasks.Task) :
  EventLoop.in_flight n l ->
  older n l ->
  run [Tasks.Settle n; Tasks.Finally n] {| Tasks.loop := l; Tasks.tasks := ts |} =
    Some {| Tasks.loop := finished n l; Tasks.tasks := ts |} /\
  Tasks.settled_with n (finished n l) =
    Some (fst (refreshCache_resume n (EventLoop.client l))).
Proof.
  intros (Hr & Hc & Hm) Hold. split.
  - simpl. rewrite Hr. simpl. rewrite Nat.eqb_refl. simpl.
    unfold EventLoop.settle.
    destruct (refreshCache_resume n (EventLoop.client l)) as [r cl]. simpl.
    rewrite Hc. simpl. rewrite Nat.eqb_refl. simpl.
    unfold EventLoop.run_finally. simpl.
    now rewrite Hr, remove_nat_self, Nat.eqb_refl.
  - unfold Tasks.settled_with. simpl.
    now rewrite (find_result n _ _ Hold).
Qed.

Lemma run_app (xs ys : list Tasks.Turn) (st st' : Tasks.State C) :
  run xs st = Some st' -> run (xs ++ ys) st = run ys st'.
Proof.
  revert st. induction xs as [|x xs IH]; simpl; intros st E.
  - now inversion E.
  - destruct (step x st) as [st1|]; [now apply IH | discriminate].
Qed.

(** A caller that finds no fetch in flight begins operation
    [issued], which is then in flight. *)
Lemma join_idle (caller : nat) (l : Loop) :
  EventLoop.idle l ->
  Tasks.join cfg caller l =
    (issued (EventLoop.client l), EventLoop.call cfg caller l) /\
  EventLoop.in_flight (issued (EventLoop.client l)) (EventLoop.call cfg caller l) /\
  EventLoop.results (EventLoop.call cfg caller l) = EventLoop.results l /\
  EventLoop.client (EventLoop.call cfg caller l) =
    set_fetching (Some (issued (EventLoop.client l)))
      (snd (JwksClient.refreshCache_begin cfg (EventLoop.client l))).
Proof.
  intros Hi. pose proof Hi as (Hr & Hc & Hm).
  split; [unfold Tasks.join; now rewrite Hm|].
  split; [apply (call_idle cfg caller l Hi)|].
  unfold EventLoop.call. rewrite Hm, refreshCache_begin_eq. now split.
Qed.

(** The second half of [getKey] when the first scan finds nothing. *)
Lemma getKey_find_miss (jwks : list JsValue) (kid : string)
    (s : Client (list JsValue) C) :
  JwksClient.findKey (Some jwks) kid = Return None ->
  JwksClient.getKey_find JSON_parse http cfg jwks kid s =
  let rr := JwksClient.ensureJWKS JSON_parse http cfg
              (appended s
                 [Logged Warn ("Key with kid " +:+ kid +:+ " not found. Refreshing JWKS.")
                    NoContext]) in
  match fst rr with
  | Throw e => (Throw e, snd rr)
  | Return _ =>
      let lk := cache_lookup JwksClient.cacheKey (snd rr) in
      match fst lk with
      | Throw e => (Throw e, snd lk)
      | Return jwks' =>
          match JwksClient.findKey jwks' kid with
          | Throw e => (Throw e, snd lk)
          | Return (Some k) => (Return k, snd lk)
          | Return None =>
              (Throw (ClientError ("No matching key found for kid " +:+ kid)
                        "JWKS_KEY_NOT_FOUND" None), snd lk)
          end
      end
  end.
Proof.
  intros Hmiss. unfold JwksClient.getKey_find.
  unfold mbind, M_bind, bind, lift_outcome. rewrite Hmiss.
  unfold logger, emit, appended. cbv zeta.
  destruct (JwksClient.ensureJWKS _ _ _ _) as [[[]|e] s2]; [|reflexivity].
  cbn [fst snd].
  destruct (cache_lookup JwksClient.cacheKey s2) as [[jwks'|e] s3]; [|reflexivity].
  cbn [fst snd].
  now destruct (JwksClient.findKey jwks' kid) as [[k|]|e].
Qed.

(** The second half of [getKey], turn by turn. *)
Lemma scan_alone (i : nat) (kid : string) (jwks : list JsValue) (l : Loop)
    (ts : list Tasks.Task) :
  length ts = i ->
  EventLoop.idle l ->
  older (issued (EventLoop.client l)) l ->
  exists st,
    run (Tasks.next_turns i (fst (Tasks.scan cfg i kid jwks l)))
      {| Tasks.loop := snd (Tasks.scan cfg i kid jwks l);
         Tasks.tasks := ts ++ [fst (Tasks.scan cfg i kid jwks l)] |} = Some st /\
    Tasks.tasks st =
      ts ++ [Tasks.Done
               (fst (JwksClient.getKey_find JSON_parse http cfg jwks kid
                       (EventLoop.client l)))] /\
    EventLoop.client (Tasks.loop st) =
      snd (JwksClient.getKey_find JSON_parse http cfg jwks kid (EventLoop.client l)).
Proof.
  intros <- Hidle Hold.
  destruct (JwksClient.findKey (Some jwks) kid) as [[k|]|e] eqn:Efind.
  - unfold Tasks.scan, JwksClient.getKey_find.
    unfold mbind, M_bind, bind, lift_outcome. rewrite Efind.
    eexists. repeat split; reflexivity.
  - rewrite (getKey_find_miss jwks kid _ Efind).
    unfold Tasks.scan. rewrite Efind. cbv zeta.
    set (warned := appended (EventLoop.client l) _).
    assert (EventLoop.idle (Tasks.with_client warned l)) as Hidle'
      by (destruct Hidle as (? & ? & ?); now repeat split).
    destruct (join_idle (length ts) _ Hidle') as (Hj & Hfl & Hres & Hcl).
    rewrite Hj. cbn [fst snd Tasks.next_turns].
    change (EventLoop.client (Tasks.with_client warned l)) with warned in *.
    set (n := issued warned) in *.
    set (lj := EventLoop.call cfg (length ts) (Tasks.with_client warned l)) in *.
    assert (older n lj) as Hold' by (rewrite Hres; exact Hold).
    destruct (cycle n lj (ts ++ [Tasks.Finding kid n]) Hfl Hold') as (Hrun & Hset).
    change [Tasks.Settle n; Tasks.Finally n; Tasks.Resume (length ts)]
      with ([Tasks.Settle n; Tasks.Finally n] ++ [Tasks.Resume (length ts)]).
    rewrite (run_app _ _ _ _ Hrun).
    cbn [Tasks.run Tasks.step Tasks.tasks Tasks.loop].
    rewrite lookup_last. cbn [mbind option_bind Tasks.resume]. rewrite Hset.
    clear Hrun Hset.
    rewrite ensureJWKS_eq.
    assert (fetching warned = None) as Hm by apply Hidle.
    rewrite Hm. cbv zeta. rewrite Hcl. fold n.
    destruct (refreshCache_resume n
                (set_fetching (Some n) (snd (JwksClient.refreshCache_begin cfg warned))))
      as [[[]|e] cl]; cbn [fst snd].
    + unfold cache_lookup. cbn [cache fetching issued trace set_fetching Tasks.with_client EventLoop.client].
      destruct (cache_get JwksClient.cacheKey (cache cl)) as [jwks' c2].
      cbn [fst snd].
      destruct (JwksClient.findKey jwks' kid) as [[k|]|e];
        cbn [mbind option_bind]; rewrite insert_last;
        eexists; repeat split; reflexivity.
    + cbn [mbind option_bind]. rewrite insert_last.
      eexists. repeat split; reflexivity.
  - unfold Tasks.scan, JwksClient.getKey_find.
    unfold mbind, M_bind, bind, lift_outcome. rewrite Efind.
    eexists. repeat split; reflexivity.
Qed.

(** [getKey] with a kid, by the outcome of its first lookup. *)
Lemma getKey_eq (kid : string) (s : Client (list JsValue) C) :
  kid <> "" ->
  getKey kid s =
  let lk := cache_lookup JwksClient.cacheKey s in
  match fst lk with
  | Throw e => (Throw e, snd lk)
  | Return (Some jwks) =>
      JwksClient.getKey_find JSON_parse http cfg jwks kid
        (appended (snd lk)
           [Logged Debug ("Cache hit for key: " +:+ JwksClient.cacheKey) NoContext])
  | Return None =>
      let rr := JwksClient.ensureJWKS JSON_parse http cfg (snd lk) in
      match fst rr with
      | Throw e => (Throw e, snd rr)
      | Return _ =>
          let lk2 := cache_lookup JwksClient.cacheKey (snd rr) in
          match fst lk2 with
          | Throw e => (Throw e, snd lk2)
          | Return (Some jwks) =>
              JwksClient.getKey_find JSON_parse http cfg jwks kid (snd lk2)
          | Return None =>
              (Throw (ClientError "JWKS cache is empty after refresh"
                        "JWKS_FETCH_ERROR" None), snd lk2)
          end
      end
  end.
Proof.
  intros Hkid. apply String.eqb_neq in Hkid.
  unfold JwksClient.getKey. rewrite Hkid.
  unfold JwksClient.getKey_load.
  unfold mbind, M_bind, bind. cbv zeta.
  destruct (cache_lookup JwksClient.cacheKey s) as [[[jwks|]|e] s1];
    cbn [fst snd]; try reflexivity.
  destruct (JwksClient.ensureJWKS _ _ _ s1) as [[[]|e] s2];
    cbn [fst snd]; try reflexivity.
  now destruct (cache_lookup JwksClient.cacheKey s2) as [[[jwks|]|e] s3].
Qed.

Lemma cache_lookup_frame (key : string) (s : Client (list JsValue) C) :
  fetching (snd (cache_lookup key s)) = fetching s /\
  issued (snd (cache_lookup key s)) = issued s.
Proof.
  unfold cache_lookup. now destruct (cache_get key (cache s)).
Qed.

(** Finishes a goal about [Tasks.alone] once the first stop and the run
    from it are known. *)
Ltac alone_done :=
  cbn [mbind option_bind Tasks.tasks Tasks.loop Tasks.next_turns Tasks.run];
  rewrite ?insert_last, ?lookup_last;
  cbn [mbind option_bind Tasks.tasks Tasks.loop Tasks.next_turns Tasks.run];
  rewrite ?lookup_last;
  cbn [mbind option_bind Tasks.tasks Tasks.loop Tasks.next_turns Tasks.run];
  eexists; repeat split; reflexivity.

(** X19.  One call of [getKey], run turn by turn on the event loop with
    nothing else in between (up to its first [await], the settlement of
    the fetch, the [finally] callback, its continuation, and the same
    once more for the second refresh), ends with the outcome and in the
    client state of [getKey] read to completion. *)
Theorem getKey_turn_by_turn (kid : string) (l : Loop) (ts : list Tasks.Task) :
  EventLoop.idle l ->
  older (issued (EventLoop.client l)) l ->
  exists st,
    Tasks.alone JSON_parse http cfg kid {| Tasks.loop := l; Tasks.tasks := ts |} =
      Some st /\
    Tasks.tasks st = ts ++ [Tasks.Done (fst (getKey kid (EventLoop.client l)))] /\
    EventLoop.client (Tasks.loop st) = snd (getKey kid (EventLoop.client l)).
Proof.
  intros Hidle Hold.
  unfold Tasks.alone. cbn [Tasks.step Tasks.tasks Tasks.loop]. unfold Tasks.start.
  destruct (String.eqb kid "") eqn:Ek.
  { unfold JwksClient.getKey. rewrite Ek. alone_done. }
  rewrite (getKey_eq kid _ (proj1 (String.eqb_neq _ _) Ek)). cbv zeta.
  destruct (cache_lookup_frame JwksClient.cacheKey (EventLoop.client l)) as [Hlm Hli].
  destruct (cache_lookup JwksClient.cacheKey (EventLoop.client l))
    as [[[jwks|]|e] cl]; cbn [fst snd] in *.
  - set (l' := Tasks.with_client (appended cl _) l).
    assert (EventLoop.idle l') as Hidle'
      by (destruct Hidle as (? & ? & ?); repeat split; try assumption;
          simpl; congruence).
    assert (older (issued (EventLoop.client l')) l') as Hold'
      by (simpl; rewrite Hli; exact Hold).
    destruct (scan_alone (length ts) kid jwks l' ts eq_refl Hidle' Hold')
      as (st & Hrun & Htasks & Hclient).
    destruct (Tasks.scan cfg (length ts) kid jwks l') as [t1 l1].
    cbn [fst snd] in *.
    cbn [mbind option_bind Tasks.tasks Tasks.loop]. rewrite lookup_last.
    cbn [mbind option_bind]. rewrite Hrun.
    cbn [mbind option_bind]. rewrite Htasks, lookup_last.
    cbn [mbind option_bind Tasks.next_turns Tasks.run].
    exists st. now repeat split.
  - set (l' := Tasks.with_client cl l).
    assert (EventLoop.idle l') as Hidle'
      by (destruct Hidle as (? & ? & ?); repeat split; try assumption;
          simpl; congruence).
    destruct (join_idle (length ts) l' Hidle') as (Hj & Hfl & Hres & Hcl).
    rewrite Hj.
    change (EventLoop.client l') with cl in *.
    set (n := issued cl) in *.
    set (lj := EventLoop.call cfg (length ts) l') in *.
    assert (older n lj) as Hold' by (rewrite Hres, Hli; exact Hold).
    destruct (cycle n lj (ts ++ [Tasks.Loading kid n]) Hfl Hold') as (Hrun & Hset).
    cbn [mbind option_bind Tasks.tasks Tasks.loop]. rewrite lookup_last.
    cbn [mbind option_bind Tasks.next_turns].
    change [Tasks.Settle n; Tasks.Finally n; Tasks.Resume (length ts)]
      with ([Tasks.Settle n; Tasks.Finally n] ++ [Tasks.Resume (length ts)]).
    rewrite (run_app _ _ _ _ Hrun).
    cbn [Tasks.run Tasks.step Tasks.tasks Tasks.loop].
    rewrite lookup_last. cbn [mbind option_bind Tasks.resume]. rewrite Hset.
    clear Hrun Hset.
    rewrite ensureJWKS_eq.
    assert (fetching cl = None) as Hm by (rewrite Hlm; apply Hidle).
    rewrite Hm. cbv zeta. rewrite Hcl. fold n.
    destruct (refreshCache_resume_frame JSON_parse http cfg n
                (set_fetching (Some n) (snd (JwksClient.refreshCache_begin cfg cl))))
      as (_ & _ & _ & _ & _ & Hiss & _).
    destruct (refreshCache_resume n
                (set_fetching (Some n) (snd (JwksClient.refreshCache_begin cfg cl))))
      as [[[]|e] cl2]; cbn [fst snd] in *;
      rewrite refreshCache_begin_eq in Hiss; simpl in Hiss.
    + unfold cache_lookup.
      cbn [cache fetching issued trace set_fetching Tasks.with_client EventLoop.client].
      destruct (cache_get JwksClient.cacheKey (cache cl2)) as [[jwks|] c2];
        cbn [fst snd].
      * match goal with |- context [Tasks.scan cfg _ kid jwks ?lx] => set (l2 := lx) end.
        assert (EventLoop.idle l2) as Hidle2 by now repeat split.
        assert (older (issued (EventLoop.client l2)) l2) as Hold2.
        { simpl. apply Forall_app. split.
          - rewrite Hres. simpl. eapply Forall_impl; [exact Hold|].
            simpl. intros p Hp. subst n. lia.
          - constructor; [|constructor]. simpl. subst n. lia. }
        destruct (scan_alone (length ts) kid jwks l2 ts eq_refl Hidle2 Hold2)
          as (st & Hrun & Htasks & Hclient).
        destruct (Tasks.scan cfg (length ts) kid jwks l2) as [t2 l3].
        cbn [fst snd] in *.
        cbn [mbind option_bind]. rewrite insert_last.
        cbn [mbind option_bind Tasks.tasks Tasks.loop]. rewrite lookup_last.
        cbn [mbind option_bind]. rewrite Hrun.
        exists st. now repeat split.
      * alone_done.
    + alone_done.
  - alone_done.
Qed.
End TasksAlone.

(** ** Concurrent calls of [getKey] on a cold cache *)

Section TasksConcurrent.
Local Open Scope list_scope.
Context {C : Type} `{ICache (list JsValue) C}.
Variable JSON_parse : string -> option JsValue.
Variable http : nat -> HttpOutcome.
Variable cfg : JwksClient.Config.

(** What is asked of the cache, for the client's key: while nothing is
    stored ([vacant]) lookups miss; once [v] is stored ([holds v])
    lookups return it. *)
Variable vacant : C -> Prop.
Variable holds : list JsValue -> C -> Prop.
Hypothesis lookup_vacant :
  forall c, vacant c ->
            fst (cache_get JwksClient.cacheKey c) = None /\
            vacant (snd (cache_get JwksClient.cacheKey c)).
Hypothesis store_holds :
  forall v c, holds v (cache_set JwksClient.cacheKey v (JwksClient.cacheTtl cfg) c).
Hypothesis lookup_holds :
  forall v c, holds v c ->
              fst (cache_get JwksClient.cacheKey c) = Some v /\
              holds v (snd (cache_get JwksClient.cacheKey c)).

(** The provider's answer to the first request holds the kid. *)
Variable kid body : string.
Variable props : list (string * JsValue).
Variable keys : list JsValue.
Variable k : JsValue.
Hypothesis kid_given : kid <> "".
Hypothesis answer : http 0%nat = Resolved body.
Hypothesis answer_parses : JSON_parse body = Some (JObject props).
Hypothesis answer_keys : own_property props "keys" = Some (JArray keys).
Hypothesis answer_has_kid :
  JwksClient.Array_find (JwksClient.kid_is kid) keys = Return (Some k).

Local Abbreviation State := (Tasks.State C).
Local Abbreviation run := (Tasks.run JSON_parse http cfg).
Local Abbreviation step := (Tasks.step JSON_parse http cfg).
Local Abbreviation client_of st := (EventLoop.client (Tasks.loop st)).
Local Abbreviation L := (Tasks.Loading kid 0).
Local Abbreviation D := (Tasks.Done (Return k)).

(** While the first fetch is in flight: every call so far is suspended
    on operation 0 and one request has been made. *)
Local Abbreviation waiting m st :=
  (Tasks.tasks st = repeat L m /\
   EventLoop.running (Tasks.loop st) = [0%nat] /\
   EventLoop.cleanup (Tasks.loop st) = [] /\
   EventLoop.results (Tasks.loop st) = [] /\
   fetching (client_of st) = Some 0%nat /\
   vacant (cache (client_of st)) /\
   fetches (trace (client_of st)) = 1%nat /\
   cache_writes (trace (client_of st)) = 0%nat).

Lemma start_joins (m : nat) (st : State) :
  waiting m st ->
  exists st', step (Tasks.Start kid) st = Some st' /\ waiting (S m) st'.
Proof.
  intros (Ht & Hr & Hc & Hres & Hm & Hv & Hf & Hw).
  apply String.eqb_neq in kid_given.
  cbn [Tasks.step]. unfold Tasks.start. rewrite kid_given.
  unfold cache_lookup.
  destruct (lookup_vacant _ Hv) as [Hmiss Hv'].
  destruct (cache_get JwksClient.cacheKey (cache (client_of st))) as [got c1].
  cbn [fst snd] in *. subst got.
  unfold Tasks.join, EventLoop.call.
  cbn [EventLoop.client Tasks.with_client fetching]. rewrite Hm.
  eexists. split; [reflexivity|].
  cbn [Tasks.tasks Tasks.loop EventLoop.client EventLoop.running EventLoop.cleanup
       EventLoop.results Tasks.with_client fetching cache trace].
  rewrite Ht, fetches_app, cache_writes_app, Hf, Hw.
  repeat split; try assumption.
  change [L] with (repeat L 1). rewrite <- repeat_app.
  f_equal. lia.
Qed.

Lemma first_start (c : C) :
  vacant c ->
  exists st,
    step (Tasks.Start kid)
      {| Tasks.loop := EventLoop.initial c; Tasks.tasks := [] |} = Some st /\
    waiting 1 st.
Proof.
  intros Hv.
  apply String.eqb_neq in kid_given.
  cbn [Tasks.step]. unfold Tasks.start. rewrite kid_given.
  unfold cache_lookup, EventLoop.initial.
  cbn [EventLoop.client cache Tasks.loop].
  destruct (lookup_vacant _ Hv) as [Hmiss Hv'].
  destruct (cache_get JwksClient.cacheKey c) as [got c1].
  cbn [fst snd] in *. subst got.
  unfold Tasks.join, EventLoop.call.
  cbn [EventLoop.client Tasks.with_client fetching].
  rewrite refreshCache_begin_eq.
  eexists. split; [reflexivity|].
  now repeat split.
Qed.

Lemma starts_join (n m : nat) (st : State) :
  waiting m st ->
  exists st', run (repeat (Tasks.Start kid) n) st = Some st' /\ waiting (n + m) st'.
Proof.
  revert m st. induction n as [|n IH]; intros m st Hw.
  - exists st. now split.
  - destruct (start_joins m st Hw) as (st1 & Hstep & Hw1).
    destruct (IH (S m) st1 Hw1) as (st' & Hrun & Hw').
    exists st'. cbn [repeat Tasks.run]. rewrite Hstep.
    split; [exact Hrun|]. now replace (S n + m)%nat with (n + S m)%nat by lia.
Qed.

(** Once the fetch has settled and its [finally] callback has run: [i]
    calls have returned the key, [j] are still suspended, and the key
    set is in the cache. *)
Local Abbreviation ready i j st :=
  (Tasks.tasks st = repeat D i ++ repeat L j /\
   Tasks.settled_with 0 (Tasks.loop st) = Some (Return tt) /\
   holds keys (cache (client_of st)) /\
   fetches (trace (client_of st)) = 1%nat /\
   cache_writes (trace (client_of st)) = 1%nat).

Lemma fetch_settles (m : nat) (st : State) :
  waiting m st ->
  exists st', run [Tasks.Settle 0; Tasks.Finally 0] st = Some st' /\ ready 0 m st'.
Proof.
  intros (Ht & Hr & Hc & Hres & Hm & Hv & Hf & Hw).
  destruct st as [l ts]. cbn [Tasks.tasks Tasks.loop] in *.
  assert (EventLoop.in_flight 0 l) as Hfl by now repeat split.
  assert (Forall (fun p : nat * Outcome unit => (fst p < 0)%nat) (EventLoop.results l))
    as Hold by (rewrite Hres; constructor).
  destruct (cycle JSON_parse http cfg 0 l ts Hfl Hold) as (Hrun & Hset).
  eexists. split; [exact Hrun|].
  cbn [Tasks.tasks Tasks.loop]. rewrite Hset. clear Hrun Hset.
  cbn [EventLoop.client].
  rewrite refreshCache_resume_eq, answer, answer_parses.
  cbn [read_keys]. rewrite answer_keys.
  cbn [fst snd set_fetching JwksClient.refreshed cache trace].
  rewrite fetches_app, cache_writes_app, Hf, Hw.
  repeat split; [exact Ht | apply store_holds].
Qed.

Lemma resume_returns (i j : nat) (st : State) :
  ready i (S j) st ->
  exists st', step (Tasks.Resume i) st = Some st' /\ ready (S i) j st'.
Proof.
  intros (Ht & Hs & Hh & Hf & Hw).
  cbn [Tasks.step]. rewrite Ht.
  cbn [repeat].
  rewrite (list_lookup_middle (repeat D i) (repeat L j) L i)
    by now rewrite repeat_length.
  cbn [mbind option_bind Tasks.resume]. rewrite Hs.
  unfold cache_lookup.
  destruct (lookup_holds _ _ Hh) as [Hhit Hh'].
  destruct (cache_get JwksClient.cacheKey (cache (client_of st))) as [got c1].
  cbn [fst snd] in *. subst got.
  unfold Tasks.scan, JwksClient.findKey. rewrite answer_has_kid.
  cbn [mbind option_bind].
  eexists. split; [reflexivity|].
  cbn [Tasks.tasks Tasks.loop EventLoop.client Tasks.with_client cache trace].
  rewrite fetches_app, cache_writes_app, Hf, Hw.
  repeat split; try assumption.
  rewrite insert_app_r_alt by (rewrite repeat_length; lia).
  rewrite repeat_length, Nat.sub_diag. cbn [insert list_insert].
  change (D :: repeat L j) with ([D] ++ repeat L j).
  rewrite app_assoc. f_equal.
  change [D] with (repeat D 1). rewrite <- repeat_app. now rewrite Nat.add_1_r.
Qed.

Lemma resumes_return (j i : nat) (st : State) :
  ready i j st ->
  exists st', run (map Tasks.Resume (seq i j)) st = Some st' /\ ready (i + j) 0 st'.
Proof.
  revert i st. induction j as [|j IH]; intros i st Hr.
  - exists st. split; [reflexivity|]. now rewrite Nat.add_0_r.
  - destruct (resume_returns i j st Hr) as (st1 & Hstep & Hr1).
    destruct (IH (S i) st1 Hr1) as (st' & Hrun & Hr').
    exists st'. cbn [seq map Tasks.run]. rewrite Hstep.
    split; [exact Hrun|]. now replace (i + S j)%nat with (S i + j)%nat by lia.
Qed.

(** X20.  Any number of calls of [getKey] made at once on a client whose
    cache holds nothing, for a kid the provider serves: the first call
    begins the one fetch, every later call joins it, and once it has
    settled each call returns the key.  The whole costs one request and
    one cache write. *)
Theorem concurrent_getKey_share_one_fetch (n : nat) (c : C) :
  vacant c ->
  exists st,
    run (repeat (Tasks.Start kid) (S n) ++
         [Tasks.Settle 0; Tasks.Finally 0] ++
         map Tasks.Resume (seq 0 (S n)))
      {| Tasks.loop := EventLoop.initial c; Tasks.tasks := [] |} = Some st /\
    Tasks.tasks st = repeat (Tasks.Done (Return k)) (S n) /\
    fetches (trace (client_of st)) = 1%nat /\
    cache_writes (trace (client_of st)) = 1%nat.
Proof.
  intros Hv.
  destruct (first_start c Hv) as (st1 & Hstep & Hw1).
  destruct (starts_join n 1 st1 Hw1) as (st2 & Hrun2 & Hw2).
  destruct (fetch_settles _ st2 Hw2) as (st3 & Hrun3 & Hr3).
  destruct (resumes_return _ 0 st3 Hr3) as (st4 & Hrun4 & Ht & _ & _ & Hf & Hw).
  exists st4. split; [|split; [|split]]; try assumption.
  - cbn [repeat]. rewrite <- app_comm_cons. cbn [Tasks.run]. rewrite Hstep.
    rewrite (run_app JSON_parse http cfg _ _ _ _ Hrun2).
    rewrite (run_app JSON_parse http cfg _ _ _ _ Hrun3).
    replace (S n) with (n + 1)%nat by lia. exact Hrun4.
  - rewrite Ht, app_nil_r. f_equal. lia.
Qed.
End TasksConcurrent.

(** ** The further properties on concrete worlds *)

(** The in-memory cache gives back what was just stored, when the time
    to live is not negative. *)
Lemma InMemoryCache_get_set {T : Type} (key : string) (v : T) (ttl : Z)
    (c : InMemoryCache T) :
  (0 <= ttl)%Z -> fst (cache_get key (cache_set key v ttl c)) = Some v.
Proof.
  intros Httl. cbn [cache_get cache_set InMemoryCache_ICache].
  unfold InMemoryCache_get, InMemoryCache_set. cbn [entries clock].
  rewrite lookup_insert_eq.
  destruct (Z.leb_spec (clock c) (clock c + ttl)); [reflexivity | lia].
Qed.

Lemma vacant_lookup {T : Type} (key : string) (c : InMemoryCache T) :
  Worlds.vacant key c ->
  fst (cache_get key c) = None /\ Worlds.vacant key (snd (cache_get key c)).
Proof.
  unfold Worlds.vacant. intros Hv.
  cbn [cache_get InMemoryCache_ICache]. unfold InMemoryCache_get.
  rewrite Hv. now split.
Qed.

Lemma holds_store {T : Type} (key : string) (v : T) (ttl : Z) (c : InMemoryCache T) :
  (0 <= ttl)%Z -> Worlds.holds key v (cache_set key v ttl c).
Proof.
  intros Httl. exists (clock c + ttl)%Z.
  cbn [cache_set InMemoryCache_ICache]. unfold InMemoryCache_set. cbn [entries clock].
  rewrite lookup_insert_eq. split; [reflexivity | lia].
Qed.

Lemma holds_lookup {T : Type} (key : string) (v : T) (c : InMemoryCache T) :
  Worlds.holds key v c ->
  fst (cache_get key c) = Some v /\ Worlds.holds key v (snd (cache_get key c)).
Proof.
  intros (expiry & He & Hlive).
  cbn [cache_get InMemoryCache_ICache]. unfold InMemoryCache_get.
  rewrite He.
  destruct (Z.leb_spec (clock c) expiry); [|lia].
  split; [reflexivity|]. now exists expiry.
Qed.

Lemma refreshCache_throws_ClientError_witness :
  let http := Scenario.network [] in
  let e := ClientError "Failed to fetch JWKS" "JWKS_FETCH_ERROR" None in
  instanceof_ClientError e = true /\
  (http (issued Scenario.fresh) = Rejected e \/
   error_code e = Some "JWKS_FETCH_ERROR" \/
   error_code e = Some "JWKS_PARSE_ERROR" \/
   error_code e = Some "JWKS_INVALID").
Proof.
  intros http e.
  apply (refreshCache_throws_ClientError JSON.parse http Scenario.cfg Scenario.fresh
           (snd (JwksClient.refreshCache JSON.parse http Scenario.cfg Scenario.fresh)) e).
  vm_compute. reflexivity.
Defined.

Lemma ensureJWKS_idle_witness :
  let http := Scenario.network Scenario.one_key in
  JwksClient.ensureJWKS JSON.parse http Scenario.cfg Scenario.fresh =
    JwksClient.refreshCache JSON.parse http Scenario.cfg Scenario.fresh /\
  fetching (snd (JwksClient.ensureJWKS JSON.parse http Scenario.cfg Scenario.fresh)) = None.
Proof.
  intros http.
  apply (ensureJWKS_idle JSON.parse http Scenario.cfg Scenario.fresh).
  reflexivity.
Defined.

Lemma getKey_ends_idle_witness :
  let http := Scenario.network [] in
  fetching (snd (JwksClient.getKey JSON.parse http Scenario.cfg "k1" Scenario.fresh)) = None.
Proof.
  intros http.
  apply (getKey_ends_idle JSON.parse http Scenario.cfg "k1" Scenario.fresh).
  reflexivity.
Defined.

Lemma getKey_writes_what_it_fetched_witness :
  let http := Scenario.network Scenario.one_key in
  let s := Scenario.holding Scenario.rotated in
  exists delta,
    trace (snd (JwksClient.getKey JSON.parse http Scenario.cfg "k9" s)) =
      (trace s ++ delta)%list /\
    (cache_writes delta <= fetches delta)%nat /\
    Forall (fun ev => is_CacheSet ev = true ->
                      exists keys,
                        ev = CacheSet JwksClient.cacheKey keys
                               (JwksClient.cacheTtl Scenario.cfg)) delta.
Proof.
  intros http s.
  apply (getKey_writes_what_it_fetched JSON.parse http Scenario.cfg "k9" s).
  reflexivity.
Defined.

Lemma getKey_returns_requested_kid_witness :
  exists props,
    Scenario.jwk "k2" "Ag" = JObject props /\
    own_property props "kid" = Some (JString "k2").
Proof.
  apply (getKey_returns_requested_kid JSON.parse (Scenario.network []) Scenario.cfg
           "k2" (Scenario.holding Scenario.rotated)
           (snd (JwksClient.getKey JSON.parse (Scenario.network []) Scenario.cfg
                   "k2" (Scenario.holding Scenario.rotated)))
           (Scenario.jwk "k2" "Ag")).
  vm_compute. reflexivity.
Defined.

Lemma getKey_null_entry_witness :
  let http := Scenario.network Scenario.one_key in
  let s := Scenario.holding Worlds.with_null in
  fst (JwksClient.getKey JSON.parse http Scenario.cfg "k2" s) =
    Throw (NativeError "TypeError" "Cannot read properties of null (reading 'kid')") /\
  fetches (trace (snd (JwksClient.getKey JSON.parse http Scenario.cfg "k2" s))) =
    fetches (trace s).
Proof.
  intros http s.
  apply (getKey_null_entry JSON.parse http Scenario.cfg "k2" s (cache s)
           [Scenario.jwk "k1" "AQ"] [Scenario.jwk "k2" "Ag"]).
  - discriminate.
  - vm_compute. reflexivity.
  - constructor; [vm_compute; reflexivity | constructor].
Defined.

Lemma getKey_undefined_after_refresh_witness :
  let http := Scenario.network Scenario.one_key in
  let s := Scenario.holding [Scenario.jwk "k0" "AA"] in
  let s1 := snd (cache_lookup JwksClient.cacheKey s) in
  let s2 :=
    snd (JwksClient.ensureJWKS JSON.parse http Worlds.short_lived
           (appended s1
              [Logged Debug ("Cache hit for key: " +:+ JwksClient.cacheKey) NoContext;
               Logged Warn ("Key with kid " +:+ "k1" +:+ " not found. Refreshing JWKS.")
                 NoContext])) in
  let s3 := snd (cache_lookup JwksClient.cacheKey s2) in
  JwksClient.getKey JSON.parse http Worlds.short_lived "k1" s =
    (Throw (NativeError "TypeError"
              "Cannot read properties of undefined (reading 'find')"), s3).
Proof.
  intros http s s1 s2 s3.
  apply (getKey_undefined_after_refresh JSON.parse http Worlds.short_lived "k1"
           [Scenario.jwk "k0" "AA"] s s1 s2 s3).
  - discriminate.
  - vm_compute. reflexivity.
  - vm_compute. reflexivity.
  - vm_compute. reflexivity.
  - vm_compute. reflexivity.
Defined.

Lemma getKey_refresh_failure_witness :
  let http := Scenario.network [] in
  let e := ClientError "Failed to fetch JWKS" "JWKS_FETCH_ERROR" None in
  fst (JwksClient.getKey JSON.parse http Scenario.cfg "k1" Scenario.fresh) = Throw e /\
  exists delta,
    trace (snd (JwksClient.getKey JSON.parse http Scenario.cfg "k1" Scenario.fresh)) =
      (trace Scenario.fresh ++ delta)%list /\
    fetches delta = 1%nat /\
    cache_writes delta = 0%nat.
Proof.
  intros http e.
  apply (getKey_refresh_failure JSON.parse http Scenario.cfg "k1" Scenario.fresh e
           None InMemoryCache_empty).
  - discriminate.
  - reflexivity.
  - vm_compute. reflexivity.
  - exact I.
  - vm_compute. reflexivity.
Defined.

Lemma getKey_recovers_by_one_fetch_witness :
  let http := Scenario.network Worlds.after_rotation in
  let s := Scenario.holding [Scenario.jwk "k1" "AQ"] in
  fst (JwksClient.getKey JSON.parse http Scenario.cfg "k2" s) =
    Return (Scenario.jwk "k2" "Ag") /\
  fetches (trace (snd (JwksClient.getKey JSON.parse http Scenario.cfg "k2" s))) =
    S (fetches (trace s)) /\
  fetching (snd (JwksClient.getKey JSON.parse http Scenario.cfg "k2" s)) = None.
Proof.
  intros http s.
  apply (getKey_recovers_by_one_fetch JSON.parse http Scenario.cfg "k2" s
           (Some [Scenario.jwk "k1" "AQ"]) (cache s)
           (Scenario.jwks_body [Scenario.jwk "k2" "Ag"; Scenario.jwk "k3" "Aw"])
           [("keys", JArray [Scenario.jwk "k2" "Ag"; Scenario.jwk "k3" "Aw"])]
           [Scenario.jwk "k2" "Ag"; Scenario.jwk "k3" "Aw"]
           (Scenario.jwk "k2" "Ag")).
  - intros v c. apply InMemoryCache_get_set. vm_compute. discriminate.
  - discriminate.
  - reflexivity.
  - vm_compute. reflexivity.
  - vm_compute. reflexivity.
  - reflexivity.
  - vm_compute. reflexivity.
  - reflexivity.
  - vm_compute. reflexivity.
Defined.

Lemma requests_follow_cycles_witness :
  let st := Worlds.interleaved_end in
  fetches (trace (EventLoop.client st)) = issued (EventLoop.client st) /\
  issued (EventLoop.client st) =
    (finished_cycles Scenario.interleaving +
     match fetching (EventLoop.client st) with Some _ => 1 | None => 0 end)%nat.
Proof.
  intros st.
  apply (requests_follow_cycles JSON.parse
           (Scenario.network [Resolved (Scenario.jwks_body [Scenario.jwk "k1" "AQ"])])
           Scenario.cfg InMemoryCache_empty Scenario.interleaving st).
  vm_compute. reflexivity.
Defined.

Lemma getUserInfo_one_bearer_request_witness :
  let getUserInfo :=
    UserInfoClient.getUserInfo (Return (Some "tok")) Worlds.userinfo_endpoint
      (Worlds.userinfo_transport "tok") JSON.parse in
  exists delta,
    snd (getUserInfo []) = ([] ++ delta)%list /\
    List.filter UserInfoClient.is_Get delta =
      [UserInfoClient.Get Worlds.userinfo_endpoint
         (JSON.stringify
            (JObject [("Authorization", JString ("Bearer " +:+ "tok"))]))].
Proof.
  intros getUserInfo.
  apply (getUserInfo_one_bearer_request (Return (Some "tok")) Worlds.userinfo_endpoint
           (Worlds.userinfo_transport "tok") JSON.parse "tok" []).
  - reflexivity.
  - discriminate.
Defined.

Lemma getUserInfo_wraps_every_failure_witness :
  let get := Worlds.userinfo_transport "other" in
  let getUserInfo :=
    UserInfoClient.getUserInfo (Return (Some "tok")) Worlds.userinfo_endpoint
      get JSON.parse in
  let bearer := JSON.stringify (UserInfoClient.headers "tok") in
  (forall userInfo,
     fst (getUserInfo []) = Return userInfo ->
     exists body,
       get Worlds.userinfo_endpoint bearer = Resolved body /\
       JSON.parse body = Some userInfo) /\
  (forall error,
     fst (getUserInfo []) = Throw error ->
     exists cause,
       error = ClientError "User info retrieval failed" "USERINFO_ERROR" (Some cause) /\
       last (snd (getUserInfo [])) =
         Some (UserInfoClient.LogError "Failed to fetch user info" cause) /\
       (get Worlds.userinfo_endpoint bearer = Rejected cause \/
        exists body,
          get Worlds.userinfo_endpoint bearer = Resolved body /\
          JSON.parse body = None)).
Proof.
  intros get getUserInfo bearer.
  apply (getUserInfo_wraps_every_failure (Return (Some "tok")) Worlds.userinfo_endpoint
           get JSON.parse "tok" []).
  - reflexivity.
  - discriminate.
Defined.

Lemma getDiscoveryConfig_failure_not_cached_witness :
  let http := Scenario.network [] in
  let e := ClientError "Unable to fetch discovery configuration" "DISCOVERY_ERROR"
             (Some Scenario.network_failure) in
  let r := DiscoveryClient.getDiscoveryConfig JSON.parse http Scenario.discovery_cfg
             false Worlds.discovery_cold in
  instanceof_ClientError e = true /\
  exists delta,
    trace (snd r) = (trace Worlds.discovery_cold ++ delta)%list /\
    cache_writes delta = 0%nat.
Proof.
  intros http e r.
  apply (getDiscoveryConfig_failure_not_cached JSON.parse http Scenario.discovery_cfg
           false Worlds.discovery_cold e).
  vm_compute. reflexivity.
Defined.

Lemma getKey_turn_by_turn_witness :
  let http := Scenario.network Scenario.one_key in
  let l := EventLoop.initial InMemoryCache_empty in
  exists st,
    Tasks.alone JSON.parse http Scenario.cfg "k1"
      {| Tasks.loop := l; Tasks.tasks := [] |} = Some st /\
    Tasks.tasks st =
      ([] ++ [Tasks.Done (fst (JwksClient.getKey JSON.parse http Scenario.cfg "k1"
                                 (EventLoop.client l)))])%list /\
    EventLoop.client (Tasks.loop st) =
      snd (JwksClient.getKey JSON.parse http Scenario.cfg "k1" (EventLoop.client l)).
Proof.
  intros http l.
  apply (getKey_turn_by_turn JSON.parse http Scenario.cfg "k1" l []).
  - repeat split; reflexivity.
  - constructor.
Defined.

Lemma concurrent_getKey_share_one_fetch_witness :
  let http := Scenario.network Scenario.one_key in
  exists st,
    Tasks.run JSON.parse http Scenario.cfg
      (repeat (Tasks.Start "k1") 3 ++
       [Tasks.Settle 0; Tasks.Finally 0] ++
       map Tasks.Resume (seq 0 3))%list
      {| Tasks.loop := EventLoop.initial InMemoryCache_empty; Tasks.tasks := [] |} =
      Some st /\
    Tasks.tasks st = repeat (Tasks.Done (Return (Scenario.jwk "k1" "AQ"))) 3 /\
    fetches (trace (EventLoop.client (Tasks.loop st))) = 1%nat /\
    cache_writes (trace (EventLoop.client (Tasks.loop st))) = 1%nat.
Proof.
  intros http.
  apply (concurrent_getKey_share_one_fetch JSON.parse http Scenario.cfg
           (Worlds.vacant JwksClient.cacheKey) (Worlds.holds JwksClient.cacheKey)
           (vacant_lookup JwksClient.cacheKey)
           (fun v c => holds_store JwksClient.cacheKey v
                         (JwksClient.cacheTtl Scenario.cfg) c
                         ltac:(vm_compute; discriminate))
           (holds_lookup JwksClient.cacheKey)
           "k1" (Scenario.jwks_body [Scenario.jwk "k1" "AQ"])
           [("keys", JArray [Scenario.jwk "k1" "AQ"])]
           [Scenario.jwk "k1" "AQ"] (Scenario.jwk "k1" "AQ")
           ltac:(discriminate) eq_refl
           ltac:(vm_compute; reflexivity) eq_refl ltac:(vm_compute; reflexivity)
           2%nat InMemoryCache_empty).
  reflexivity.
Defined.

Lemma getKey_lookups_witness :
  let http := Scenario.network Scenario.one_key in
  JwksClient.getKey JSON.parse http Scenario.cfg "" Scenario.fresh =
    (Throw (ClientError "kid must be provided" "INVALID_KID" None), Scenario.fresh) /\
  exists delta,
    trace (snd (JwksClient.getKey JSON.parse http Scenario.cfg "k1" Scenario.fresh)) =
      (trace Scenario.fresh ++ delta)%list /\
    (1 <= cache_reads delta <= 3)%nat.
Proof.
  intros http. split.
  - apply (proj1 (getKey_lookups JSON.parse http Scenario.cfg "" Scenario.fresh)).
    reflexivity.
  - apply (proj2 (getKey_lookups JSON.parse http Scenario.cfg "k1" Scenario.fresh)).
    discriminate.
Defined.

Lemma new_client_fetches_its_uri_witness :
  let http := Scenario.network Scenario.one_key in
  let uri := "https://idp.example/jwks" in
  JwksClient.new "" JwksClient.default_cacheTtl =
    Throw (ClientError "Invalid JWKS URI provided" "INVALID_JWKS_URI" None) /\
  exists cfg,
    JwksClient.new uri JwksClient.default_cacheTtl = Return cfg /\
    forall s : Client (list JsValue) (InMemoryCache (list JsValue)),
    exists delta,
      trace (snd (JwksClient.refreshCache JSON.parse http cfg s)) =
        (trace s ++ delta)%list /\
      List.filter is_HttpGet delta = [HttpGet uri].
Proof.
  intros http uri. split.
  - apply (proj1 (new_client_fetches_its_uri
                    (C := InMemoryCache (list JsValue)) JSON.parse http
                    "" JwksClient.default_cacheTtl)).
    reflexivity.
  - apply (proj2 (new_client_fetches_its_uri JSON.parse http
                    uri JwksClient.default_cacheTtl)).
    discriminate.
Defined.

Lemma getUserInfo_without_token_witness :
  let expired := ClientError "Refresh token expired" "TOKEN_EXPIRED" None in
  UserInfoClient.getUserInfo (Return None) Worlds.userinfo_endpoint
    (Worlds.userinfo_transport "tok") JSON.parse [] =
    (Throw (ClientError "No valid access token available" "NO_ACCESS_TOKEN" None),
     [UserInfoClient.GetAccessToken]) /\
  UserInfoClient.getUserInfo (Throw expired) Worlds.userinfo_endpoint
    (Worlds.userinfo_transport "tok") JSON.parse [] =
    (Throw expired, [UserInfoClient.GetAccessToken]).
Proof.
  intros expired. split.
  - apply (proj1 (getUserInfo_without_token (Return None) Worlds.userinfo_endpoint
                    (Worlds.userinfo_transport "tok") JSON.parse []) None);
      reflexivity.
  - apply (proj2 (getUserInfo_without_token (Throw expired) Worlds.userinfo_endpoint
                    (Worlds.userinfo_transport "tok") JSON.parse []) expired).
    reflexivity.
Defined.

(** ** The parser on escaped characters *)

(** An escaped surrogate pair parses to the same bytes as the character
    it denotes written out (here U+1F600). *)
Lemma parse_surrogate_pair :
  JSON.parse (String JSON.dquote ("\ud83d\ude00" +:+ String JSON.dquote "")) =
    Some (JString (String "240" (String "159" (String "152" (String "128" ""))))) /\
  JSON.parse
    (String JSON.dquote
       (String "240" (String "159" (String "152" (String "128"
          (String JSON.dquote "")))))) =
    Some (JString (String "240" (String "159" (String "152" (String "128" ""))))).
Proof. vm_compute. split; reflexivity. Qed.
